(** * upnp-portmapping: SSDP discovery and port-mapping enumeration

    A shallow embedding of [upnp-portmapping.go].  Go strings are byte
    strings ([string]), Go integers are [Z] with their wrap-around written
    out, [http.Header] and the [seenUsns] map are [gmap]s, and every call
    that leaves the program (a log line, [httpu.Do], a SOAP action) is
    recorded, in program order, in a trace of events. *)

From Stdlib Require Import ZArith Ascii String List Lia.
From stdpp Require Import base gmap strings list.

Local Open Scope string_scope.
Local Open Scope list_scope.
Local Open Scope Z_scope.
Local Open Scope stdpp_scope.

(** ** Outcomes of Go calls *)

(** A Go [error] value, identified by its message. *)
Inductive error : Type :=
| errors_New (msg : string).

(** A Go result pair [(v, err)]: either [err == nil] and [v] is meaningful,
    or [err != nil]. *)
Inductive result (A : Type) : Type :=
| Ok (v : A)
| Err (err : error).
Arguments Ok {A} v.
Arguments Err {A} err.

(** A Go call either returns or panics (run-time error). *)
Inductive exec (A : Type) : Type :=
| Returns (v : A)
| Panics (msg : string).
Arguments Returns {A} v.
Arguments Panics {A} msg.

(** ** Package [strings] *)

Module strings.

Fixpoint HasPrefix (s prefix : string) : bool :=
  match prefix, s with
  | EmptyString, _ => true
  | String _ _, EmptyString => false
  | String p prefix', String c s' =>
      if Ascii.eqb c p then HasPrefix s' prefix' else false
  end.

(** [strings.Contains s substr]: [substr] occurs at some offset of [s]. *)
Fixpoint Contains (s substr : string) : bool :=
  HasPrefix s substr ||
  match s with
  | EmptyString => false
  | String _ s' => Contains s' substr
  end.

(** One-byte pieces of [s]: what [strings.Split] gives for the empty
    separator on ASCII input.  The program never splits on it. *)
Fixpoint explode (s : string) : list string :=
  match s with
  | EmptyString => []
  | String c s' => String c EmptyString :: explode s'
  end.

(** The scan of [strings.Split] for a non-empty [sep].  [skip] counts the
    bytes of a separator that was matched and is still to be passed over;
    [cur] is the piece since the last separator, most recent byte first. *)
Fixpoint splitScan (sep s : string) (skip : nat) (cur : list ascii)
  : list string :=
  match s with
  | EmptyString => [string_of_list_ascii (rev cur)]
  | String c s' =>
      match skip with
      | S k => splitScan sep s' k cur
      | O =>
          if HasPrefix s sep
          then string_of_list_ascii (rev cur)
                 :: splitScan sep s' (Nat.pred (String.length sep)) []
          else splitScan sep s' O (c :: cur)
      end
  end.

(** [strings.Split s sep]: the substrings of [s] between the
    non-overlapping occurrences of [sep], leftmost first. *)
Definition Split (s sep : string) : list string :=
  match sep with
  | EmptyString => explode s
  | String _ _ => splitScan sep s O []
  end.

End strings.

(** ** Package [net/url] *)

Module url.

(** The fields of [url.URL] that [url.Parse] fills in. *)
Record URL : Type := mkURL {
  Scheme : string;
  Opaque : string;
  Host : string;
  Path : string;
  RawQuery : string;
  Fragment : string
}.

Definition withHost (u : URL) (h : string) : URL :=
  {| Scheme := Scheme u; Opaque := Opaque u; Host := h;
     Path := Path u; RawQuery := RawQuery u; Fragment := Fragment u |}.

End url.

(** ** Package [strconv] *)

Module strconv.

(** The digit of value [d] in bases up to 36: [0-9] then [a-z]. *)
Definition digit (d : Z) : ascii :=
  ascii_of_N (Z.to_N (if d <? 10 then 48 + d else 87 + d)).

(** Digits of [u] in [base], least significant first, pushed in front of
    [acc].  A [uint64] has at most 64 digits in any base of 2 or more,
    which bounds the loop. *)
Fixpoint formatBits (fuel : nat) (u base : Z) (acc : string) : string :=
  match fuel with
  | O => acc
  | S fuel' =>
      let acc' := String (digit (u mod base)) acc in
      if u / base =? 0 then acc' else formatBits fuel' (u / base) base acc'
  end.

Definition FormatUint (u base : Z) : string := formatBits 64 u base "".

Definition FormatInt (i base : Z) : string :=
  if i <? 0 then String "-" (FormatUint (- i) base) else FormatUint i base.

End strconv.

(** ** Fixed-width integers and package [time] *)

Definition int64 (z : Z) : Z := (z + 2 ^ 63) mod 2 ^ 64 - 2 ^ 63.
Definition uint64 (z : Z) : Z := z mod 2 ^ 64.
Definition uint16 (z : Z) : Z := z mod 2 ^ 16.

Module time.

(** A [time.Duration] is an [int64] count of nanoseconds. *)
Definition Duration (z : Z) : Z := int64 z.
Definition Millisecond : Z := 1000000.
Definition Second : Z := 1000000000.

End time.

(** ** Package [net/http] *)

Module http.

(** [http.Header] is [map[string][]string]. *)
Abbreviation Header := (gmap string (list string)).

Record Request : Type := mkRequest {
  Method : string;
  Host : string;
  URL : url.URL;
  ReqHeader : Header
}.

Record Response : Type := mkResponse {
  Status : string;
  StatusCode : Z;
  RespHeader : Header
}.

End http.

(** ** What the program takes from its libraries

    [net/url], [net/textproto] and [net/http] are not part of the program;
    the development holds for any behaviour of the functions below. *)
Class Library : Type := {
  (** [url.Parse] *)
  url_Parse : string → result url.URL;
  (** [URL.String], a method of [url.URL] *)
  URL_String : url.URL → string;
  (** [textproto.CanonicalMIMEHeaderKey] *)
  CanonicalMIMEHeaderKey : string → string;
  (** [Response.Location], a method of [http.Response] *)
  Response_Location : http.Response → result url.URL
}.

(** [http.Header.Get]: the first value stored under the canonical form of
    [key], or the empty string. *)
Definition Header_Get `{Library} (h : http.Header) (key : string) : string :=
  match h !! CanonicalMIMEHeaderKey key with
  | Some (v :: _) => v
  | _ => ""
  end.

(** ** The program's own types *)

(** [PortMappingEntry] represents a NAT port mapping entry. *)
Record PortMappingEntry : Type := mkPortMappingEntry {
  NewRemoteHost : string;
  NewExternalPort : string;
  NewProtocol : string;
  NewInternalPort : string;
  NewInternalClient : string;
  NewEnabled : string;
  NewPortMappingDescription : string;
  NewLeaseDuration : string
}.

Record portMappingRequest : Type := mkPortMappingRequest {
  NewPortMappingIndex : string
}.

(** ** Packages [httpu], [soap] and [internetgateway1] *)

Module httpu.

(** [Do req timeout numSends], a method of the client: what the network answers. *)
Record HTTPUClient : Type := mkHTTPUClient {
  Do : http.Request → Z → Z → result (list http.Response)
}.

End httpu.

Module internetgateway1.

Definition URN_WANIPConnection_1 : string :=
  "urn:schemas-upnp-org:service:WANIPConnection:1".

(** A gateway connection: the names the program logs, and what the gateway
    answers to a SOAP action ([SOAPClient.PerformAction] with the request
    and reply types of this program). *)
Record WANIPConnection1 : Type := mkWANIPConnection1 {
  FriendlyName : string;
  ServiceString : string;
  PerformAction : string → string → portMappingRequest → result PortMappingEntry
}.

End internetgateway1.

Module soap.

(** Modelled from the spec: [soap.MarshalUi2] belongs to the goupnp library
    and is not among the sources.  The spec has the index "bounded to an
    unsigned 16-bit range", marshalled into "the protocol's unsigned-16
    representation" (a decimal numeral), with an encoding failure that
    "should not occur for a valid index". *)
Definition MarshalUi2 (v : Z) : result string :=
  if (0 <=? v) && (v <? 2 ^ 16)
  then Ok (strconv.FormatUint (uint64 v) 10)
  else Err (errors_New "ui2: value out of range").

End soap.

(** The network as the program meets it. *)
Record World : Type := mkWorld {
  NewHTTPUClient : result httpu.HTTPUClient;
  NewWANIPConnection1ClientsByURL :
    url.URL → result (list internetgateway1.WANIPConnection1)
}.

(** ** Observable behaviour *)

(** What the program does to the outside, one constructor per call site. *)
Inductive Event : Type :=
| EvDo (req : http.Request) (timeout numSends : Z)
    (* httpu.Do(&req, timeout, numSends) *)
| EvLogStatus (status : string)
    (* "ssdp: got response status code %q in search response" *)
| EvLogNoLocation (err : error)
    (* "ssdp: no usable location in search response (discarding): %v" *)
| EvLogEmptyUSN
    (* "ssdp: empty/missing USN in search response (using location instead): %v" *)
| EvLogLocation (rawurl : string)
    (* "UPnP daemon location: %s\n" *)
| EvLogDevice (friendlyName service : string)
    (* log.Println(dev.FriendlyName, " :: ", srv.String()) *)
| EvPerformAction (ns action : string) (req : portMappingRequest)
    (* conn.SOAPClient.PerformAction(ns, action, pmr, pme) *)
| EvLogEntry (pme : PortMappingEntry)
    (* log.Println(pme) *)
| EvLogFatal (err : error).
    (* log.Fatal(err): the line is logged, then the process exits *)

(** A computation: the events it performs, in order, and its value. *)
Definition M (A : Type) : Type := (list Event * A)%type.

#[global] Instance M_ret : MRet M := λ A a, ([], a).
#[global] Instance M_bind : MBind M :=
  λ A B f m, let '(l1, a) := m in let '(l2, b) := f a in (l1 ++ l2, b).

Definition emit (e : Event) : M unit := ([e], tt).
Definition events {A} (m : M A) : list Event := fst m.
Definition value {A} (m : M A) : A := snd m.

(** ** The program *)

Definition maxWaitSeconds : Z := 5.
Definition methodSearch : string := "M-SEARCH".
Definition searchTarget : string := "upnp:rootdevice".
Definition ssdpDiscover : string := "ssdp:discover".
Definition numSends : Z := 2.

Section Program.
Context `{Library}.

(** The request literal of [ssdpRawSearch]. *)
Definition searchRequest (host : string) : http.Request :=
  {| http.Method := methodSearch;
     http.Host := host;
     http.URL := url.mkURL "" "*" "" "" "" "";
     http.ReqHeader :=
       {[ "HOST" := [host];
          "MX" := [strconv.FormatInt (int64 maxWaitSeconds) 10];
          "MAN" := [ssdpDiscover];
          "ST" := [searchTarget] ]} |}.

(** [time.Duration(maxWaitSeconds)*time.Second+100*time.Millisecond] *)
Definition searchTimeout : Z :=
  int64 (int64 (time.Duration maxWaitSeconds * time.Second)
         + int64 (100 * time.Millisecond)).

(** The [for _, response := range allResponses] loop of [ssdpRawSearch],
    with the two variables it updates. *)
Fixpoint filterResponses (allResponses : list http.Response)
    (seenUsns : gmap string bool) (responses : list http.Response)
  : M (list http.Response) :=
  match allResponses with
  | [] => mret responses
  | response :: rest =>
      if negb (http.StatusCode response =? 200) then
        _ ← emit (EvLogStatus (http.Status response));
        filterResponses rest seenUsns responses
      else
        match Response_Location response with
        | Err err =>
            _ ← emit (EvLogNoLocation err);
            filterResponses rest seenUsns responses
        | Ok location =>
            usn ← (let usn := Header_Get (http.RespHeader response) "USN" in
                   if String.eqb usn "" then
                     _ ← emit EvLogEmptyUSN;
                     mret (URL_String location)
                   else mret usn);
            match seenUsns !! usn with
            | None =>
                filterResponses rest (<[usn := true]> seenUsns)
                  (responses ++ [response])
            | Some _ => filterResponses rest seenUsns responses
            end
        end
  end.

Definition ssdpRawSearch (cl : httpu.HTTPUClient) (host : string)
  : M (result http.Response) :=
  let req := searchRequest host in
  _ ← emit (EvDo req searchTimeout numSends);
  match httpu.Do cl req searchTimeout numSends with
  | Err err => mret (Err err)
  | Ok allResponses =>
      responses ← filterResponses allResponses ∅ [];
      match responses with
      | [] => mret (Err (errors_New "No SSDP response avaiable"))
      | first :: _ => mret (Ok first)
      end
  end.

(** The key under which the loop of [ssdpRawSearch] files [response], when
    the response gets as far as the [seenUsns] test. *)
Definition dedupKey (response : http.Response) : option string :=
  if negb (http.StatusCode response =? 200) then None
  else
    match Response_Location response with
    | Err _ => None
    | Ok location =>
        let usn := Header_Get (http.RespHeader response) "USN" in
        Some (if String.eqb usn "" then URL_String location else usn)
    end.

(** The lines the loop of [ssdpRawSearch] logs about [response]. *)
Definition notes (response : http.Response) : list Event :=
  if negb (http.StatusCode response =? 200)
  then [EvLogStatus (http.Status response)]
  else
    match Response_Location response with
    | Err err => [EvLogNoLocation err]
    | Ok _ =>
        if String.eqb (Header_Get (http.RespHeader response) "USN") ""
        then [EvLogEmptyUSN] else []
    end.

(** [upnpLocation] returns a URL address of the UPnP daemon. *)
Definition upnpLocation (w : World) (host port : string)
  : M (exec (result url.URL)) :=
  match NewHTTPUClient w with
  | Err err => mret (Returns (Err err))
  | Ok udpcl =>
      r ← ssdpRawSearch udpcl (host +:+ port);
      match r with
      | Err err => mret (Returns (Err err))
      | Ok resp =>
          let rawurl := Header_Get (http.RespHeader resp) "Location" in
          match url_Parse rawurl with
          | Err err => mret (Returns (Err err))
          | Ok loc =>
              _ ← emit (EvLogLocation rawurl);
              if strings.Contains (url.Host loc) ":" then
                match strings.Split (url.Host loc) ":" !! 1%nat with
                | Some upnpPort =>
                    mret (Returns (Ok (url.withHost loc (host +:+ ":" +:+ upnpPort))))
                | None =>
                    mret (Panics "index out of range [1]")
                end
              else mret (Returns (Ok (url.withHost loc host)))
          end
      end
  end.

End Program.

Definition portMappingByIdx (conn : internetgateway1.WANIPConnection1)
    (index : Z) : M (result PortMappingEntry) :=
  match soap.MarshalUi2 index with
  | Err err => mret (Err err)
  | Ok si =>
      let pmr := {| NewPortMappingIndex := si |} in
      _ ← emit (EvPerformAction internetgateway1.URN_WANIPConnection_1
                  "GetGenericPortMappingEntry" pmr);
      match internetgateway1.PerformAction conn
              internetgateway1.URN_WANIPConnection_1
              "GetGenericPortMappingEntry" pmr with
      | Err err => mret (Err err)
      | Ok pme => mret (Ok pme)
      end
  end.

(** How a loop, or the process, ends. *)
Inductive Exit : Type :=
| Completed            (* ran to its end *)
| Fatal (err : error)  (* log.Fatal: exit status 1 *)
| Panicked (msg : string)
| OutOfFuel.           (* the model's bound on iterations was too small *)

(** [for i := 0; i < 50; i++ { ... }] of [main], from the value [i] on. *)
Fixpoint entriesLoop (fuel : nat) (c : internetgateway1.WANIPConnection1)
    (i : Z) : M Exit :=
  if i <? 50 then
    match fuel with
    | O => mret OutOfFuel
    | S fuel' =>
        r ← portMappingByIdx c (uint16 i);
        match r with
        | Err err => _ ← emit (EvLogFatal err); mret (Fatal err)
        | Ok pme => _ ← emit (EvLogEntry pme); entriesLoop fuel' c (i + 1)
        end
    end
  else mret Completed.

(** The inner loop of [main] for one connection. *)
Definition enumerate (c : internetgateway1.WANIPConnection1) : M Exit :=
  entriesLoop 50 c 0.

(** [for _, c := range ipclients { ... }] of [main]. *)
Fixpoint clientsLoop (ipclients : list internetgateway1.WANIPConnection1)
  : M Exit :=
  match ipclients with
  | [] => mret Completed
  | c :: rest =>
      _ ← emit (EvLogDevice (internetgateway1.FriendlyName c)
                  (internetgateway1.ServiceString c));
      x ← enumerate c;
      match x with
      | Completed => clientsLoop rest
      | stop => mret stop
      end
  end.

(** [main], with the values of the flags [-host] and [-p]. *)
Definition main `{Library} (w : World) (host port : string) : M Exit :=
  r ← upnpLocation w host port;
  match r with
  | Panics msg => mret (Panicked msg)
  | Returns (Err err) => _ ← emit (EvLogFatal err); mret (Fatal err)
  | Returns (Ok loc) =>
      match NewWANIPConnection1ClientsByURL w loc with
      | Err err => _ ← emit (EvLogFatal err); mret (Fatal err)
      | Ok ipclients => clientsLoop ipclients
      end
  end.

(** ** Reading a trace *)

(** The probes sent. *)
Definition isDo (e : Event) : bool :=
  match e with EvDo _ _ _ => true | _ => false end.

(** The events of discovery: the probe and the lines logged before any
    gateway is asked. *)
Definition isDiscovery (e : Event) : bool :=
  match e with
  | EvDo _ _ _ | EvLogStatus _ | EvLogNoLocation _ | EvLogEmptyUSN
  | EvLogLocation _ => true
  | _ => false
  end.

(** The entries logged by [log.Println(pme)], in order. *)
Fixpoint yielded (evs : list Event) : list PortMappingEntry :=
  match evs with
  | [] => []
  | EvLogEntry pme :: evs' => pme :: yielded evs'
  | _ :: evs' => yielded evs'
  end.

(** The requests of the SOAP actions performed, in order. *)
Fixpoint queried (evs : list Event) : list portMappingRequest :=
  match evs with
  | [] => []
  | EvPerformAction _ _ req :: evs' => req :: queried evs'
  | _ :: evs' => queried evs'
  end.

(** What the gateway answers when asked for the entry at index [i]. *)
Definition getEntry (c : internetgateway1.WANIPConnection1) (i : Z)
  : result PortMappingEntry :=
  internetgateway1.PerformAction c internetgateway1.URN_WANIPConnection_1
    "GetGenericPortMappingEntry"
    {| NewPortMappingIndex := strconv.FormatUint i 10 |}.

(** The trace of a successful query at index [i]. *)
Definition entryEvents (tbl : Z → PortMappingEntry) (i : Z) : list Event :=
  [EvPerformAction internetgateway1.URN_WANIPConnection_1
     "GetGenericPortMappingEntry"
     {| NewPortMappingIndex := strconv.FormatUint i 10 |};
   EvLogEntry (tbl i)].

(** The trace of a failed query at index [i]. *)
Definition errorEvents (i : Z) (err : error) : list Event :=
  [EvPerformAction internetgateway1.URN_WANIPConnection_1
     "GetGenericPortMappingEntry"
     {| NewPortMappingIndex := strconv.FormatUint i 10 |};
   EvLogFatal err].

(** What the gateway holds at index [i]: the entry it answers with, or the
    zero value of [PortMappingEntry] where it answers with an error. *)
Definition entryAt (c : internetgateway1.WANIPConnection1) (i : Z)
  : PortMappingEntry :=
  match getEntry c i with
  | Ok pme => pme
  | Err _ => mkPortMappingEntry "" "" "" "" "" "" "" ""
  end.

(** A port-mapping table with exactly [K] valid indices: the gateway
    answers with [tbl i] at every index [i] below [K] and with the error
    [err] at index [K]. *)
Definition hasTable (c : internetgateway1.WANIPConnection1) (K : Z)
    (tbl : Z → PortMappingEntry) (err : error) : Prop :=
  0 ≤ K < 2 ^ 16 ∧
  (∀ i, 0 ≤ i < K → getEntry c i = Ok (tbl i)) ∧
  getEntry c K = Err err.

(** ** A small stand-in for the libraries

    Enough of [net/url] and [net/http] to run the program on concrete
    inputs: URLs of the shape [scheme://host/path] and header keys made of
    ASCII letters and dashes.  No theorem below depends on it; only the
    concrete examples do. *)

Module demo.

Definition isLower (c : ascii) : bool :=
  let n := N_of_ascii c in (N.leb 97 n && N.leb n 122)%N.
Definition isUpper (c : ascii) : bool :=
  let n := N_of_ascii c in (N.leb 65 n && N.leb n 90)%N.
Definition toUpper (c : ascii) : ascii :=
  if isLower c then ascii_of_N (N_of_ascii c - 32) else c.
Definition toLower (c : ascii) : ascii :=
  if isUpper c then ascii_of_N (N_of_ascii c + 32) else c.

(** First letter and letters after a dash in upper case, others in lower. *)
Fixpoint canon (upper : bool) (s : string) : string :=
  match s with
  | EmptyString => EmptyString
  | String c s' =>
      String (if upper then toUpper c else toLower c)
        (canon (Ascii.eqb c "-") s')
  end.

Fixpoint dropBytes (n : nat) (s : string) : string :=
  match n, s with
  | O, _ => s
  | S _, EmptyString => EmptyString
  | S n', String _ s' => dropBytes n' s'
  end.

Definition parse (rawurl : string) : result url.URL :=
  match strings.Split rawurl "://" with
  | [scheme; rest] =>
      match strings.Split rest "/" with
      | host :: _ =>
          Ok (url.mkURL scheme "" host
                (dropBytes (String.length host) rest) "" "")
      | [] => Err (errors_New "parse: missing host")
      end
  | _ => Err (errors_New "parse: not an absolute URL")
  end.

Definition render (u : url.URL) : string :=
  url.Scheme u +:+ "://" +:+ url.Host u +:+ url.Path u.

Definition location (r : http.Response) : result url.URL :=
  match http.RespHeader r !! "Location" with
  | Some (lv :: _) =>
      if String.eqb lv "" then Err (errors_New "http: no Location header in response")
      else parse lv
  | _ => Err (errors_New "http: no Location header in response")
  end.

Definition library : Library :=
  {| url_Parse := parse;
     URL_String := render;
     CanonicalMIMEHeaderKey := canon true;
     Response_Location := location |}.

(** A discovery response with status 200 and the given headers. *)
Definition response (location usn : string) : http.Response :=
  {| http.Status := "200 OK";
     http.StatusCode := 200;
     http.RespHeader := {[ "Location" := [location]; "Usn" := [usn] ]} |}.

(** A discovery response with status 200, a location and no USN. *)
Definition bare (location : string) : http.Response :=
  {| http.Status := "200 OK";
     http.StatusCode := 200;
     http.RespHeader := {[ "Location" := [location] ]} |}.

(** A discovery response with a status other than 200. *)
Definition failed : http.Response :=
  {| http.Status := "500 Internal Server Error";
     http.StatusCode := 500;
     http.RespHeader := ∅ |}.

(** A client whose network answers every probe with [rs]. *)
Definition client (rs : list http.Response) : httpu.HTTPUClient :=
  {| httpu.Do := λ _ _ _, Ok rs |}.

Definition world (rs : list http.Response) : World :=
  {| NewHTTPUClient := Ok (client rs);
     NewWANIPConnection1ClientsByURL := λ _, Ok [] |}.

(** The value of a decimal numeral, as a gateway reads the index back. *)
Fixpoint readDigits (s : string) (acc : Z) : Z :=
  match s with
  | EmptyString => acc
  | String c s' => readDigits s' (10 * acc + (Z.of_N (N_of_ascii c) - 48))
  end.

Definition readDecimal (s : string) : Z := readDigits s 0.

Definition entry (i : Z) : PortMappingEntry :=
  {| NewRemoteHost := "";
     NewExternalPort := strconv.FormatUint (8000 + i) 10;
     NewProtocol := "TCP";
     NewInternalPort := "80";
     NewInternalClient := "192.168.1.10";
     NewEnabled := "1";
     NewPortMappingDescription := "web";
     NewLeaseDuration := "0" |}.

Definition endOfTable : error := errors_New "SpecifiedArrayIndexInvalid".

(** A gateway whose table has the entries [entry 0 .. entry (K-1)]. *)
Definition gateway (K : Z) : internetgateway1.WANIPConnection1 :=
  {| internetgateway1.FriendlyName := "gateway";
     internetgateway1.ServiceString := "WANIPConnection";
     internetgateway1.PerformAction := λ _ _ req,
       let i := readDecimal (NewPortMappingIndex req) in
       if i <? K then Ok (entry i) else Err endOfTable |}.

End demo.

(** * Properties *)

(** ** Traces *)

Lemma events_bind {A B} (m : M A) (f : A → M B) :
  events (m ≫= f) = events m ++ events (f (value m)).
Proof.
  unfold events, value, mbind, M_bind.
  destruct m as [l1 a]; simpl. destruct (f a) as [l2 b]; reflexivity.
Qed.

Lemma value_bind {A B} (m : M A) (f : A → M B) :
  value (m ≫= f) = value (f (value m)).
Proof.
  unfold events, value, mbind, M_bind.
  destruct m as [l1 a]; simpl. destruct (f a) as [l2 b]; reflexivity.
Qed.

Lemma events_pair {A} (l : list Event) (a : A) : events (l, a) = l.
Proof. reflexivity. Qed.

Lemma value_pair {A} (l : list Event) (a : A) : value (l, a) = a.
Proof. reflexivity. Qed.

Lemma M_eq {A} (m1 m2 : M A) :
  events m1 = events m2 → value m1 = value m2 → m1 = m2.
Proof. destruct m1, m2; simpl; congruence. Qed.

Lemma emit_bind {B} (e : Event) (k : M B) :
  (emit e ≫= λ _, k) = (e :: events k, value k).
Proof. unfold emit, mbind, M_bind. destruct k; reflexivity. Qed.

(** ** Splitting on a one-byte separator *)

Section OneByte.
Variable c : ascii.
Local Abbreviation sep := (String c EmptyString).

Lemma Contains_cons (d : ascii) (s : string) :
  strings.Contains (String d s) sep = Ascii.eqb d c || strings.Contains s sep.
Proof.
  simpl. destruct (Ascii.eqb d c); [|reflexivity].
  destruct s; reflexivity.
Qed.

Lemma splitScan_cons (d : ascii) (s : string) (cur : list ascii) :
  strings.splitScan sep (String d s) O cur
  = if Ascii.eqb d c
    then string_of_list_ascii (rev cur) :: strings.splitScan sep s O []
    else strings.splitScan sep s O (d :: cur).
Proof.
  simpl. destruct (Ascii.eqb d c); [|reflexivity].
  destruct s; reflexivity.
Qed.

Lemma splitScan_nonempty (s : string) (cur : list ascii) :
  ∃ a rest, strings.splitScan sep s O cur = a :: rest.
Proof.
  revert cur. induction s as [|d s IH]; intros cur; [simpl; eauto|].
  rewrite splitScan_cons. destruct (Ascii.eqb d c); [eauto | apply IH].
Qed.

(** A string that contains the separator splits in two pieces or more. *)
Lemma Contains_Split_second (s : string) :
  strings.Contains s sep = true →
  ∃ a b rest, strings.Split s sep = a :: b :: rest.
Proof.
  unfold strings.Split.
  generalize (@nil ascii) as cur.
  induction s as [|d s IH]; intros cur Hc; [discriminate|].
  rewrite Contains_cons in Hc. rewrite splitScan_cons.
  destruct (Ascii.eqb d c); simpl in Hc.
  - destruct (splitScan_nonempty s []) as (b & rest & ->). eauto.
  - apply IH, Hc.
Qed.

Lemma splitScan_piece (a t : string) (cur : list ascii) :
  strings.Contains a sep = false →
  strings.splitScan sep (a +:+ String c t) O cur
  = string_of_list_ascii (rev cur ++ list_ascii_of_string a)
      :: strings.splitScan sep t O [].
Proof.
  revert cur. induction a as [|d a IH]; intros cur Hc.
  - change ("" +:+ String c t) with (String c t).
    rewrite splitScan_cons, Ascii.eqb_refl, app_nil_r. reflexivity.
  - rewrite Contains_cons in Hc. apply orb_false_iff in Hc as [Hd Ha].
    change (String d a +:+ String c t) with (String d (a +:+ String c t)).
    rewrite splitScan_cons, Hd, (IH _ Ha). simpl.
    rewrite <- app_assoc. reflexivity.
Qed.

Lemma splitScan_last (a : string) (cur : list ascii) :
  strings.Contains a sep = false →
  strings.splitScan sep a O cur
  = [string_of_list_ascii (rev cur ++ list_ascii_of_string a)].
Proof.
  revert cur. induction a as [|d a IH]; intros cur Hc.
  - simpl. rewrite app_nil_r. reflexivity.
  - rewrite Contains_cons in Hc. apply orb_false_iff in Hc as [Hd Ha].
    rewrite splitScan_cons, Hd, (IH _ Ha). simpl.
    rewrite <- app_assoc. reflexivity.
Qed.

(** The first piece is what precedes the first separator. *)
Lemma Split_piece (a t : string) :
  strings.Contains a sep = false →
  strings.Split (a +:+ String c t) sep = a :: strings.Split t sep.
Proof.
  intros Hc. unfold strings.Split.
  rewrite splitScan_piece by exact Hc. simpl.
  rewrite string_of_list_ascii_of_string. reflexivity.
Qed.

Lemma Split_last (a : string) :
  strings.Contains a sep = false → strings.Split a sep = [a].
Proof.
  intros Hc. unfold strings.Split.
  rewrite splitScan_last by exact Hc. simpl.
  rewrite string_of_list_ascii_of_string. reflexivity.
Qed.

Lemma Contains_append (a t : string) :
  strings.Contains (a +:+ String c t) sep = true.
Proof.
  induction a as [|d a IH].
  - change ("" +:+ String c t) with (String c t).
    rewrite Contains_cons, Ascii.eqb_refl. reflexivity.
  - change (String d a +:+ String c t) with (String d (a +:+ String c t)).
    rewrite Contains_cons, IH. apply orb_true_r.
Qed.

End OneByte.

(** ** The location rewrite of [upnpLocation] *)

Section Rewrite.
Context `{Library}.

(** Once a response is selected and its [Location] parses, the result is
    decided by the host of the parsed URL alone. *)
Lemma upnpLocation_selected (w : World) (host port : string)
    (udpcl : httpu.HTTPUClient) (resp : http.Response) (loc : url.URL) :
  NewHTTPUClient w = Ok udpcl →
  value (ssdpRawSearch udpcl (host +:+ port)) = Ok resp →
  url_Parse (Header_Get (http.RespHeader resp) "Location") = Ok loc →
  value (upnpLocation w host port)
  = if strings.Contains (url.Host loc) ":" then
      match strings.Split (url.Host loc) ":" !! 1%nat with
      | Some upnpPort =>
          Returns (Ok (url.withHost loc (host +:+ ":" +:+ upnpPort)))
      | None => Panics "index out of range [1]"
      end
    else Returns (Ok (url.withHost loc host)).
Proof.
  intros Hcl Hresp Hloc. unfold upnpLocation. rewrite Hcl.
  rewrite value_bind, Hresp, Hloc, emit_bind.
  destruct (strings.Contains (url.Host loc) ":"); [|reflexivity].
  destruct (strings.Split (url.Host loc) ":" !! 1%nat); reflexivity.
Qed.

(** The index expression [strings.Split(loc.Host, ":")[1]] is in range
    whenever it is evaluated: [upnpLocation] does not panic. *)
Lemma upnpLocation_no_panic (w : World) (host port msg : string) :
  value (upnpLocation w host port) ≠ Panics msg.
Proof.
  unfold upnpLocation. destruct (NewHTTPUClient w) as [udpcl|e]; [|discriminate].
  rewrite value_bind.
  destruct (value (ssdpRawSearch udpcl (host +:+ port))) as [resp|e];
    [|discriminate].
  destruct (url_Parse _) as [loc|e]; [|discriminate].
  rewrite emit_bind.
  destruct (strings.Contains (url.Host loc) ":") eqn:Hc; [|discriminate].
  destruct (Contains_Split_second _ _ Hc) as (a & b & rest & ->).
  discriminate.
Qed.

End Rewrite.

(** C1.  When a response is selected and its [Location] header parses to
    [loc]: if [loc.Host] contains a colon, [upnpLocation] returns [loc] with
    its host replaced by the probed host, a colon and the extracted port
    (the piece [strings.Split(loc.Host, ":")[1]], which for a host of the
    form [h:p] is [p]); otherwise it returns [loc] with its host replaced by
    the probed host alone.  The path is the parsed one in both cases. *)
Theorem upnpLocation_rewrites_host `{Library} (w : World) (host port : string)
    (udpcl : httpu.HTTPUClient) (resp : http.Response) (loc : url.URL) :
  NewHTTPUClient w = Ok udpcl →
  value (ssdpRawSearch udpcl (host +:+ port)) = Ok resp →
  url_Parse (Header_Get (http.RespHeader resp) "Location") = Ok loc →
  (strings.Contains (url.Host loc) ":" = true →
   ∃ upnpPort u,
     strings.Split (url.Host loc) ":" !! 1%nat = Some upnpPort ∧
     value (upnpLocation w host port) = Returns (Ok u) ∧
     url.Host u = host +:+ ":" +:+ upnpPort ∧
     url.Path u = url.Path loc ∧
     (∀ h p, url.Host loc = h +:+ ":" +:+ p →
             strings.Contains h ":" = false →
             strings.Contains p ":" = false → upnpPort = p)) ∧
  (strings.Contains (url.Host loc) ":" = false →
   ∃ u, value (upnpLocation w host port) = Returns (Ok u) ∧
        url.Host u = host ∧ url.Path u = url.Path loc).
Proof.
  intros Hcl Hresp Hloc.
  pose proof (upnpLocation_selected w host port udpcl resp loc Hcl Hresp Hloc)
    as Hv.
  split; intros Hc; rewrite Hc in Hv.
  - destruct (Contains_Split_second _ _ Hc) as (a & b & rest & Hs).
    rewrite Hs in Hv. simpl in Hv.
    exists b, (url.withHost loc (host +:+ ":" +:+ b)).
    rewrite Hs. repeat split; try assumption.
    intros h p Hhost Hh Hp. rewrite Hhost in Hs.
    change (h +:+ ":" +:+ p) with (h +:+ String ":" p) in Hs.
    rewrite (Split_piece _ _ _ Hh), (Split_last _ _ Hp) in Hs.
    congruence.
  - exists (url.withHost loc host). repeat split. exact Hv.
Qed.

(** The spec's example: probing ["10.0.0.1"], a gateway that advertises
    ["http://192.168.1.1:5000/desc.xml"] is reached at host
    ["10.0.0.1:5000"], path ["/desc.xml"]. *)
Lemma upnpLocation_rewrites_host_witness :
  ∃ u,
    value (@upnpLocation demo.library
             (demo.world [demo.response "http://192.168.1.1:5000/desc.xml" "uuid:gw"])
             "10.0.0.1" ":1900") = Returns (Ok u) ∧
    url.Host u = "10.0.0.1:5000" ∧ url.Path u = "/desc.xml".
Proof.
  destruct (@upnpLocation_rewrites_host demo.library
              (demo.world [demo.response "http://192.168.1.1:5000/desc.xml" "uuid:gw"])
              "10.0.0.1" ":1900"
              (demo.client [demo.response "http://192.168.1.1:5000/desc.xml" "uuid:gw"])
              (demo.response "http://192.168.1.1:5000/desc.xml" "uuid:gw")
              (url.mkURL "http" "" "192.168.1.1:5000" "/desc.xml" "" "")
              eq_refl eq_refl eq_refl) as [Hport _].
  destruct (Hport eq_refl) as (p & u & Hp & Hv & Hh & Hpath & _).
  exists u. split; [exact Hv|].
  vm_compute in Hp. injection Hp as <-. split; [exact Hh | exact Hpath].
Defined.

(** C10.  When the parsed host has two colons or more, [a:b:c] with [a] and
    [b] free of colons, the port taken is [b], the piece between the first
    and the second colon, whatever follows the last colon; the rewritten
    host is the probed host, a colon and [b]. *)
Theorem upnpLocation_port_is_second_piece `{Library} (w : World)
    (host port : string) (udpcl : httpu.HTTPUClient) (resp : http.Response)
    (loc : url.URL) (a b c : string) :
  NewHTTPUClient w = Ok udpcl →
  value (ssdpRawSearch udpcl (host +:+ port)) = Ok resp →
  url_Parse (Header_Get (http.RespHeader resp) "Location") = Ok loc →
  url.Host loc = a +:+ ":" +:+ b +:+ ":" +:+ c →
  strings.Contains a ":" = false →
  strings.Contains b ":" = false →
  strings.Split (url.Host loc) ":" !! 1%nat = Some b ∧
  value (upnpLocation w host port)
  = Returns (Ok (url.withHost loc (host +:+ ":" +:+ b))).
Proof.
  intros Hcl Hresp Hloc Hhost Ha Hb.
  rewrite (upnpLocation_selected w host port udpcl resp loc Hcl Hresp Hloc).
  rewrite Hhost.
  change (a +:+ ":" +:+ b +:+ ":" +:+ c)
    with (a +:+ String ":" (b +:+ String ":" c)).
  rewrite Contains_append, (Split_piece _ _ _ Ha), (Split_piece _ _ _ Hb).
  split; reflexivity.
Qed.

(** A bracketed IPv6 literal: of ["[2001:db8::1]:8080"] the piece taken is
    ["db8"], not ["8080"]. *)
Lemma upnpLocation_port_is_second_piece_witness :
  value (@upnpLocation demo.library
           (demo.world [demo.response "http://[2001:db8::1]:8080/desc.xml" "uuid:gw"])
           "10.0.0.1" ":1900")
  = Returns (Ok (url.mkURL "http" "" "10.0.0.1:db8" "/desc.xml" "" "")).
Proof.
  exact (proj2 (@upnpLocation_port_is_second_piece demo.library
           (demo.world [demo.response "http://[2001:db8::1]:8080/desc.xml" "uuid:gw"])
           "10.0.0.1" ":1900"
           (demo.client [demo.response "http://[2001:db8::1]:8080/desc.xml" "uuid:gw"])
           (demo.response "http://[2001:db8::1]:8080/desc.xml" "uuid:gw")
           (url.mkURL "http" "" "[2001:db8::1]:8080" "/desc.xml" "" "")
           "[2001" "db8" ":1]:8080"
           eq_refl eq_refl eq_refl eq_refl eq_refl eq_refl)).
Defined.

(** ** The filter of [ssdpRawSearch] *)

Section Filter.
Context `{Library}.

(** One turn of the loop: the lines logged, then the rest of the list with
    [seenUsns] and [responses] as this turn leaves them. *)
Lemma filterResponses_cons (r : http.Response) (rest : list http.Response)
    (seen : gmap string bool) (acc : list http.Response) :
  filterResponses (r :: rest) seen acc
  = let next :=
      match dedupKey r with
      | None => filterResponses rest seen acc
      | Some k =>
          match seen !! k with
          | None => filterResponses rest (<[k := true]> seen) (acc ++ [r])
          | Some _ => filterResponses rest seen acc
          end
      end in
    (notes r ++ events next, value next).
Proof.
  unfold dedupKey, notes. cbn [filterResponses].
  destruct (negb (http.StatusCode r =? 200)).
  { rewrite emit_bind. reflexivity. }
  destruct (Response_Location r) as [loc|e].
  2:{ rewrite emit_bind. reflexivity. }
  cbv zeta.
  destruct (String.eqb (Header_Get (http.RespHeader r) "USN") "").
  - apply M_eq.
    + rewrite events_bind, events_bind. reflexivity.
    + rewrite value_bind, value_bind. reflexivity.
  - apply M_eq.
    + rewrite events_bind. reflexivity.
    + rewrite value_bind. reflexivity.
Qed.

(** What [responses] held before the loop stays in front, in order. *)
Lemma filterResponses_acc (rs : list http.Response) :
  ∀ (seen : gmap string bool) (acc : list http.Response),
    value (filterResponses rs seen acc)
    = acc ++ value (filterResponses rs seen []) ∧
    events (filterResponses rs seen acc)
    = events (filterResponses rs seen []).
Proof.
  induction rs as [|r rs IH]; intros seen acc.
  - simpl. rewrite app_nil_r. split; reflexivity.
  - rewrite !filterResponses_cons. cbv zeta. rewrite !events_pair, !value_pair.
    destruct (dedupKey r) as [k|]; [destruct (seen !! k)|].
    + destruct (IH seen acc) as [-> ->]. split; reflexivity.
    + destruct (IH (<[k:=true]> seen) (acc ++ [r])) as [-> ->].
      destruct (IH (<[k:=true]> seen) ([] ++ [r])) as [-> ->].
      rewrite <- app_assoc. split; reflexivity.
    + destruct (IH seen acc) as [-> ->]. split; reflexivity.
Qed.

(** A response whose key is in [seenUsns] already, and about which nothing
    is logged, leaves no mark wherever it stands in the list. *)
Lemma filterResponses_known (u : string) (r2 : http.Response)
    (l3 : list http.Response) :
  dedupKey r2 = Some u → notes r2 = [] →
  ∀ (rs : list http.Response) (seen : gmap string bool)
    (acc : list http.Response),
    is_Some (seen !! u) →
    filterResponses (rs ++ r2 :: l3) seen acc
    = filterResponses (rs ++ l3) seen acc.
Proof.
  intros Hk Hn. induction rs as [|r rs IH]; intros seen acc [b Hb].
  - cbn [app]. rewrite filterResponses_cons, Hk, Hn, Hb. cbv zeta.
    apply M_eq; reflexivity.
  - cbn [app]. rewrite !filterResponses_cons. cbv zeta.
    destruct (dedupKey r) as [k|]; [destruct (seen !! k) eqn:Hseen|].
    + rewrite IH by eauto. reflexivity.
    + rewrite IH; [reflexivity|].
      destruct (decide (k = u)) as [->|Hne].
      * rewrite lookup_insert_eq. eauto.
      * rewrite lookup_insert_ne by exact Hne. eauto.
    + rewrite IH by eauto. reflexivity.
Qed.

(** Of two responses filed under one key, the later one leaves no mark. *)
Lemma filterResponses_later (u : string) (r1 r2 : http.Response)
    (l2 l3 : list http.Response) :
  dedupKey r1 = Some u → dedupKey r2 = Some u → notes r2 = [] →
  ∀ (l1 : list http.Response) (seen : gmap string bool)
    (acc : list http.Response),
    filterResponses (l1 ++ r1 :: l2 ++ r2 :: l3) seen acc
    = filterResponses (l1 ++ r1 :: l2 ++ l3) seen acc.
Proof.
  intros Hk1 Hk2 Hn. induction l1 as [|r l1 IH]; intros seen acc.
  - cbn [app]. rewrite !filterResponses_cons, Hk1. cbv zeta.
    destruct (seen !! u) eqn:Hseen.
    + rewrite (filterResponses_known u r2 l3 Hk2 Hn) by eauto. reflexivity.
    + rewrite (filterResponses_known u r2 l3 Hk2 Hn); [reflexivity|].
      rewrite lookup_insert_eq. eauto.
  - cbn [app]. rewrite !filterResponses_cons. cbv zeta.
    destruct (dedupKey r) as [k|]; [destruct (seen !! k)|];
      rewrite IH; reflexivity.
Qed.

(** The first response filed under a key is kept, right after what the
    responses before it contribute. *)
Lemma filterResponses_first (u : string) (r1 : http.Response)
    (rest : list http.Response) :
  dedupKey r1 = Some u →
  ∀ (l1 : list http.Response) (seen : gmap string bool)
    (acc : list http.Response),
    seen !! u = None →
    (∀ r, r ∈ l1 → dedupKey r ≠ Some u) →
    ∃ after,
      value (filterResponses (l1 ++ r1 :: rest) seen acc)
      = value (filterResponses l1 seen acc) ++ r1 :: after.
Proof.
  intros Hk1. induction l1 as [|r l1 IH]; intros seen acc Hseen Hl1.
  - cbn [app]. rewrite filterResponses_cons, Hk1, Hseen. cbv zeta.
    rewrite !value_pair.
    destruct (filterResponses_acc rest (<[u:=true]> seen) (acc ++ [r1]))
      as [-> _].
    exists (value (filterResponses rest (<[u:=true]> seen) [])).
    simpl. rewrite <- app_assoc. reflexivity.
  - cbn [app]. rewrite !filterResponses_cons. cbv zeta.
    rewrite !value_pair.
    assert (Hr : dedupKey r ≠ Some u) by (apply Hl1; left).
    assert (Hl1' : ∀ r', r' ∈ l1 → dedupKey r' ≠ Some u)
      by (intros r' Hin; apply Hl1; right; exact Hin).
    destruct (dedupKey r) as [k|]; [destruct (seen !! k)|].
    + apply IH; assumption.
    + apply IH; [|assumption].
      rewrite lookup_insert_ne; [assumption | congruence].
    + apply IH; assumption.
Qed.

(** The responses kept are among the responses received, in arrival
    order. *)
Lemma filterResponses_sublist (rs : list http.Response) :
  ∀ (seen : gmap string bool),
    value (filterResponses rs seen []) `sublist_of` rs.
Proof.
  induction rs as [|r rs IH]; intros seen.
  - simpl. constructor.
  - rewrite filterResponses_cons. cbv zeta. rewrite !value_pair.
    destruct (dedupKey r) as [k|]; [destruct (seen !! k)|].
    + apply sublist_cons, IH.
    + destruct (filterResponses_acc rs (<[k:=true]> seen) ([] ++ [r]))
        as [-> _].
      simpl. apply sublist_skip, IH.
    + apply sublist_cons, IH.
Qed.

(** A response that does not reach the [seenUsns] test only adds its log
    line. *)
Lemma filterResponses_skip (r : http.Response) (l2 : list http.Response) :
  dedupKey r = None →
  ∀ (l1 : list http.Response) (seen : gmap string bool)
    (acc : list http.Response),
    value (filterResponses (l1 ++ r :: l2) seen acc)
    = value (filterResponses (l1 ++ l2) seen acc).
Proof.
  intros Hk. induction l1 as [|r' l1 IH]; intros seen acc.
  - cbn [app]. rewrite filterResponses_cons, Hk. cbv zeta.
    rewrite value_pair. reflexivity.
  - cbn [app]. rewrite !filterResponses_cons. cbv zeta.
    rewrite !value_pair.
    destruct (dedupKey r') as [k|]; [destruct (seen !! k)|]; apply IH.
Qed.

(** Every response in the list has its lines in the log. *)
Lemma filterResponses_notes (r : http.Response) (l2 : list http.Response) :
  ∀ (l1 : list http.Response) (seen : gmap string bool)
    (acc : list http.Response) (e : Event),
    e ∈ notes r → e ∈ events (filterResponses (l1 ++ r :: l2) seen acc).
Proof.
  induction l1 as [|r' l1 IH]; intros seen acc e He.
  - cbn [app]. rewrite filterResponses_cons. cbv zeta.
    rewrite !events_pair. apply elem_of_app. left. exact He.
  - cbn [app]. rewrite filterResponses_cons. cbv zeta.
    rewrite !events_pair. apply elem_of_app. right.
    destruct (dedupKey r') as [k|]; [destruct (seen !! k)|]; apply IH, He.
Qed.

End Filter.

Section FilterCases.
Context `{Library}.

(** The four ways a response goes through one turn of the loop, read off
    the conditions the code tests. *)
Lemma turn_status (r : http.Response) :
  http.StatusCode r ≠ 200 →
  dedupKey r = None ∧ notes r = [EvLogStatus (http.Status r)].
Proof.
  intros Hs. unfold dedupKey, notes.
  destruct (Z.eqb_spec (http.StatusCode r) 200); [contradiction|].
  split; reflexivity.
Qed.

Lemma turn_location (r : http.Response) (e : error) :
  http.StatusCode r = 200 → Response_Location r = Err e →
  dedupKey r = None ∧ notes r = [EvLogNoLocation e].
Proof.
  intros Hs Hl. unfold dedupKey, notes. rewrite Hs, Hl. split; reflexivity.
Qed.

Lemma turn_usn (r : http.Response) (loc : url.URL) (usn : string) :
  http.StatusCode r = 200 → Response_Location r = Ok loc →
  Header_Get (http.RespHeader r) "USN" = usn → usn ≠ "" →
  dedupKey r = Some usn ∧ notes r = [].
Proof.
  intros Hs Hl Hu Hne. unfold dedupKey, notes. rewrite Hs, Hl, Hu.
  apply String.eqb_neq in Hne. cbv zeta. rewrite Hne. split; reflexivity.
Qed.

Lemma turn_fallback (r : http.Response) (loc : url.URL) :
  http.StatusCode r = 200 → Response_Location r = Ok loc →
  Header_Get (http.RespHeader r) "USN" = "" →
  dedupKey r = Some (URL_String loc) ∧ notes r = [EvLogEmptyUSN].
Proof.
  intros Hs Hl Hu. unfold dedupKey, notes. rewrite Hs, Hl, Hu.
  split; reflexivity.
Qed.

Lemma filterResponses_all_skipped (rs : list http.Response) :
  (∀ r, r ∈ rs → dedupKey r = None) →
  ∀ (seen : gmap string bool) (acc : list http.Response),
    value (filterResponses rs seen acc) = acc.
Proof.
  induction rs as [|r rs IH]; intros Hall seen acc; [reflexivity|].
  rewrite filterResponses_cons, (Hall r) by left. cbv zeta.
  rewrite value_pair. apply IH. intros r' Hin. apply Hall. right. exact Hin.
Qed.

Lemma filterResponses_no_probe (rs : list http.Response) :
  ∀ (seen : gmap string bool) (acc : list http.Response),
    List.filter isDo (events (filterResponses rs seen acc)) = [].
Proof.
  induction rs as [|r rs IH]; intros seen acc; [reflexivity|].
  rewrite filterResponses_cons. cbv zeta. rewrite events_pair.
  rewrite List.filter_app.
  assert (Hn : List.filter isDo (notes r) = []).
  { unfold notes. destruct (negb _); [reflexivity|].
    destruct (Response_Location r); [|reflexivity].
    destruct (String.eqb _ _); reflexivity. }
  rewrite Hn.
  destruct (dedupKey r) as [k|]; [destruct (seen !! k)|]; apply IH.
Qed.

(** What [ssdpRawSearch] returns once the network has answered. *)
Lemma ssdpRawSearch_value (cl : httpu.HTTPUClient) (host : string)
    (all : list http.Response) :
  httpu.Do cl (searchRequest host) searchTimeout numSends = Ok all →
  value (ssdpRawSearch cl host)
  = match value (filterResponses all ∅ []) with
    | [] => Err (errors_New "No SSDP response avaiable")
    | first :: _ => Ok first
    end.
Proof.
  intros HDo. unfold ssdpRawSearch. cbv zeta.
  rewrite emit_bind, value_pair, HDo, value_bind.
  destruct (value (filterResponses all ∅ [])); reflexivity.
Qed.

End FilterCases.

(** C3.  Of two responses that pass the status and location filters and
    carry the same non-empty USN, the later one leaves no mark: the loop
    ends as if it had not been received.  The earlier one is kept whenever
    it is the first response filed under that key, right after what the
    responses before it contribute; and the responses kept are among the
    responses received, in arrival order. *)
Theorem dedup_keeps_first `{Library} (l1 l2 l3 : list http.Response)
    (r1 r2 : http.Response) (loc1 loc2 : url.URL) (usn : string) :
  http.StatusCode r1 = 200 → Response_Location r1 = Ok loc1 →
  http.StatusCode r2 = 200 → Response_Location r2 = Ok loc2 →
  Header_Get (http.RespHeader r1) "USN" = usn →
  Header_Get (http.RespHeader r2) "USN" = usn →
  usn ≠ "" →
  filterResponses (l1 ++ r1 :: l2 ++ r2 :: l3) ∅ []
  = filterResponses (l1 ++ r1 :: l2 ++ l3) ∅ [] ∧
  ((∀ r, r ∈ l1 → dedupKey r ≠ Some usn) →
   ∃ after,
     value (filterResponses (l1 ++ r1 :: l2 ++ r2 :: l3) ∅ [])
     = value (filterResponses l1 ∅ []) ++ r1 :: after) ∧
  value (filterResponses (l1 ++ r1 :: l2 ++ r2 :: l3) ∅ [])
    `sublist_of` (l1 ++ r1 :: l2 ++ r2 :: l3).
Proof.
  intros Hs1 Hl1 Hs2 Hl2 Hu1 Hu2 Hne.
  destruct (turn_usn r1 loc1 usn Hs1 Hl1 Hu1 Hne) as [Hk1 _].
  destruct (turn_usn r2 loc2 usn Hs2 Hl2 Hu2 Hne) as [Hk2 Hn2].
  split; [|split].
  - apply (filterResponses_later usn r1 r2 l2 l3 Hk1 Hk2 Hn2).
  - intros Hfirst.
    apply (filterResponses_first usn r1 (l2 ++ r2 :: l3) Hk1 l1 ∅ []);
      [apply lookup_empty | exact Hfirst].
  - apply filterResponses_sublist.
Qed.

(** Two answers of one device: only the first is kept. *)
Lemma dedup_keeps_first_witness :
  value (@filterResponses demo.library
           [demo.response "http://192.168.1.1:5000/desc.xml" "uuid:gw";
            demo.response "http://192.168.1.1:5000/other.xml" "uuid:gw"] ∅ [])
  = [demo.response "http://192.168.1.1:5000/desc.xml" "uuid:gw"].
Proof.
  destruct (@dedup_keeps_first demo.library [] [] []
              (demo.response "http://192.168.1.1:5000/desc.xml" "uuid:gw")
              (demo.response "http://192.168.1.1:5000/other.xml" "uuid:gw")
              (url.mkURL "http" "" "192.168.1.1:5000" "/desc.xml" "" "")
              (url.mkURL "http" "" "192.168.1.1:5000" "/other.xml" "" "")
              "uuid:gw" eq_refl eq_refl eq_refl eq_refl eq_refl eq_refl
              ltac:(discriminate)) as [Heq _].
  cbn [app] in Heq. rewrite Heq. vm_compute. reflexivity.
Defined.

(** C4.  A response with status 200 and a usable location, whose USN header
    is empty or missing, is not dropped for that: the loop logs the fact and
    files the response under the string of its parsed location, keeping it
    when that key is not in [seenUsns] yet.  In a whole run it is kept
    whenever no response before it was filed under that key. *)
Theorem fallback_key `{Library} (r : http.Response) (loc : url.URL) :
  http.StatusCode r = 200 → Response_Location r = Ok loc →
  Header_Get (http.RespHeader r) "USN" = "" →
  (∀ rest seen acc,
     filterResponses (r :: rest) seen acc
     = (_ ← emit EvLogEmptyUSN;
        match seen !! URL_String loc with
        | None =>
            filterResponses rest (<[URL_String loc := true]> seen) (acc ++ [r])
        | Some _ => filterResponses rest seen acc
        end)) ∧
  (∀ l1 rest,
     (∀ r', r' ∈ l1 → dedupKey r' ≠ Some (URL_String loc)) →
     ∃ after,
       value (filterResponses (l1 ++ r :: rest) ∅ [])
       = value (filterResponses l1 ∅ []) ++ r :: after).
Proof.
  intros Hs Hl Hu. destruct (turn_fallback r loc Hs Hl Hu) as [Hk Hn].
  split.
  - intros rest seen acc. rewrite filterResponses_cons, Hk, Hn, emit_bind.
    reflexivity.
  - intros l1 rest Hfirst.
    apply (filterResponses_first (URL_String loc) r rest Hk l1 ∅ []);
      [apply lookup_empty | exact Hfirst].
Qed.

(** A response without USN after one with a bad status: it is kept. *)
Lemma fallback_key_witness :
  ∃ after,
    value (@filterResponses demo.library
             ([{| http.Status := "500 Internal Server Error";
                  http.StatusCode := 500; http.RespHeader := ∅ |}]
              ++ {| http.Status := "200 OK"; http.StatusCode := 200;
                    http.RespHeader :=
                      {[ "Location" := ["http://192.168.1.1:5000/desc.xml"] ]} |}
              :: []) ∅ [])
    = [] ++ {| http.Status := "200 OK"; http.StatusCode := 200;
               http.RespHeader :=
                 {[ "Location" := ["http://192.168.1.1:5000/desc.xml"] ]} |}
         :: after.
Proof.
  destruct (@fallback_key demo.library
              {| http.Status := "200 OK"; http.StatusCode := 200;
                 http.RespHeader :=
                   {[ "Location" := ["http://192.168.1.1:5000/desc.xml"] ]} |}
              (url.mkURL "http" "" "192.168.1.1:5000" "/desc.xml" "" ""))
    as [_ Hkept]; [reflexivity | vm_compute; reflexivity | vm_compute; reflexivity |].
  apply (Hkept [{| http.Status := "500 Internal Server Error";
                   http.StatusCode := 500; http.RespHeader := ∅ |}] []).
  intros r' Hin. apply list_elem_of_singleton in Hin. subst r'.
  vm_compute. discriminate.
Defined.

(** C5, as the spec words it, fails for the third anomaly: a response whose
    only fault is a missing USN is not skipped.  Alone in the list, it is the
    response kept, where skipping it would keep none. *)
Lemma missing_usn_not_skipped :
  @Header_Get demo.library
    (http.RespHeader (demo.bare "http://192.168.1.1:5000/desc.xml")) "USN" = "" ∧
  value (@filterResponses demo.library
           ([] ++ demo.bare "http://192.168.1.1:5000/desc.xml" :: []) ∅ [])
  = [demo.bare "http://192.168.1.1:5000/desc.xml"] ∧
  value (@filterResponses demo.library ([] ++ []) ∅ []) = [] ∧
  value (@ssdpRawSearch demo.library
           (demo.client [demo.bare "http://192.168.1.1:5000/desc.xml"])
           "10.0.0.1:1900")
  = Ok (demo.bare "http://192.168.1.1:5000/desc.xml").
Proof. repeat split; vm_compute; reflexivity. Qed.

(** C5, amended.  None of the three anomalies ends the loop.  A status other
    than 200, or a location that is missing or does not parse, is logged and
    the response skipped: the turn goes on with the rest of the list, and the
    run keeps what it would keep without that response.  A missing USN is
    logged too, but the response is not skipped: it is kept whenever no
    response before it was filed under the string of its location. *)
Theorem anomalies_are_not_fatal `{Library} (r : http.Response)
    (l1 l2 : list http.Response) :
  (http.StatusCode r ≠ 200 →
   (∀ rest seen acc,
      filterResponses (r :: rest) seen acc
      = (_ ← emit (EvLogStatus (http.Status r));
         filterResponses rest seen acc)) ∧
   value (filterResponses (l1 ++ r :: l2) ∅ [])
   = value (filterResponses (l1 ++ l2) ∅ []) ∧
   EvLogStatus (http.Status r) ∈ events (filterResponses (l1 ++ r :: l2) ∅ [])) ∧
  (∀ e, http.StatusCode r = 200 → Response_Location r = Err e →
   (∀ rest seen acc,
      filterResponses (r :: rest) seen acc
      = (_ ← emit (EvLogNoLocation e); filterResponses rest seen acc)) ∧
   value (filterResponses (l1 ++ r :: l2) ∅ [])
   = value (filterResponses (l1 ++ l2) ∅ []) ∧
   EvLogNoLocation e ∈ events (filterResponses (l1 ++ r :: l2) ∅ [])) ∧
  (∀ loc, http.StatusCode r = 200 → Response_Location r = Ok loc →
   Header_Get (http.RespHeader r) "USN" = "" →
   EvLogEmptyUSN ∈ events (filterResponses (l1 ++ r :: l2) ∅ []) ∧
   ((∀ r', r' ∈ l1 → dedupKey r' ≠ Some (URL_String loc)) →
    r ∈ value (filterResponses (l1 ++ r :: l2) ∅ []))).
Proof.
  split; [|split].
  - intros Hs. destruct (turn_status r Hs) as [Hk Hn]. split; [|split].
    + intros rest seen acc.
      rewrite filterResponses_cons, Hk, Hn, emit_bind. reflexivity.
    + apply filterResponses_skip, Hk.
    + apply filterResponses_notes. rewrite Hn. left.
  - intros e Hs Hl. destruct (turn_location r e Hs Hl) as [Hk Hn].
    split; [|split].
    + intros rest seen acc.
      rewrite filterResponses_cons, Hk, Hn, emit_bind. reflexivity.
    + apply filterResponses_skip, Hk.
    + apply filterResponses_notes. rewrite Hn. left.
  - intros loc Hs Hl Hu. destruct (turn_fallback r loc Hs Hl Hu) as [Hk Hn].
    split.
    + apply filterResponses_notes. rewrite Hn. left.
    + intros Hfirst.
      destruct (filterResponses_first (URL_String loc) r l2 Hk l1 ∅ []
                  (lookup_empty _) Hfirst) as [after ->].
      apply elem_of_app. right. left.
Qed.

(** A failed response ahead of a good one changes nothing to what is kept. *)
Lemma anomalies_are_not_fatal_witness :
  value (@filterResponses demo.library
           ([] ++ demo.failed
               :: [demo.response "http://192.168.1.1:5000/desc.xml" "uuid:gw"])
           ∅ [])
  = value (@filterResponses demo.library
             ([] ++ [demo.response "http://192.168.1.1:5000/desc.xml" "uuid:gw"])
             ∅ []).
Proof.
  destruct (@anomalies_are_not_fatal demo.library demo.failed []
              [demo.response "http://192.168.1.1:5000/desc.xml" "uuid:gw"])
    as [Hstatus _].
  destruct Hstatus as (_ & Hsame & _); [vm_compute; discriminate|].
  exact Hsame.
Defined.

(** C6.  When no response gets through the filter (each has a status other
    than 200 or no usable location), [ssdpRawSearch] returns the error
    "No SSDP response avaiable" and [upnpLocation] returns that error, not a
    URL.  [upnpLocation] returns a URL only when some response is kept, and
    the URL is then the parsed [Location] header of the first response kept,
    with its host rewritten. *)
Theorem empty_result_is_error `{Library} (w : World) (host port : string)
    (cl : httpu.HTTPUClient) (all : list http.Response) :
  NewHTTPUClient w = Ok cl →
  httpu.Do cl (searchRequest (host +:+ port)) searchTimeout numSends = Ok all →
  ((∀ r, r ∈ all →
      http.StatusCode r ≠ 200 ∨ ∃ e, Response_Location r = Err e) →
   value (filterResponses all ∅ []) = [] ∧
   value (ssdpRawSearch cl (host +:+ port))
   = Err (errors_New "No SSDP response avaiable") ∧
   value (upnpLocation w host port)
   = Returns (Err (errors_New "No SSDP response avaiable"))) ∧
  (∀ resp,
     value (ssdpRawSearch cl (host +:+ port)) = Ok resp ↔
     ∃ rest, value (filterResponses all ∅ []) = resp :: rest) ∧
  (∀ u,
     value (upnpLocation w host port) = Returns (Ok u) →
     ∃ first rest loc,
       value (filterResponses all ∅ []) = first :: rest ∧
       url_Parse (Header_Get (http.RespHeader first) "Location") = Ok loc ∧
       (u = url.withHost loc host ∨
        ∃ upnpPort, u = url.withHost loc (host +:+ ":" +:+ upnpPort))).
Proof.
  intros Hcl HDo.
  pose proof (ssdpRawSearch_value cl (host +:+ port) all HDo) as Hv.
  split; [|split].
  - intros Hall.
    assert (Hnil : value (filterResponses all ∅ []) = []).
    { apply filterResponses_all_skipped. intros r Hin.
      destruct (Hall r Hin) as [Hs|[e He]].
      - apply (turn_status r Hs).
      - destruct (Z.eq_dec (http.StatusCode r) 200) as [Hs|Hs].
        + apply (turn_location r e Hs He).
        + apply (turn_status r Hs). }
    rewrite Hnil in Hv. split; [exact Hnil|]. split; [exact Hv|].
    unfold upnpLocation. rewrite Hcl, value_bind, Hv. reflexivity.
  - intros resp. rewrite Hv.
    destruct (value (filterResponses all ∅ [])) as [|first rest].
    + split; [discriminate | intros [? ?]; discriminate].
    + split.
      * intros [= ->]. eauto.
      * intros [rest' [= -> _]]. reflexivity.
  - intros u Hu. unfold upnpLocation in Hu.
    rewrite Hcl, value_bind, Hv in Hu.
    destruct (value (filterResponses all ∅ [])) as [|first rest];
      [discriminate|].
    destruct (url_Parse (Header_Get (http.RespHeader first) "Location"))
      as [loc|e] eqn:Hloc; [|discriminate].
    exists first, rest, loc. split; [reflexivity|]. split; [exact Hloc|].
    rewrite emit_bind, value_pair in Hu.
    destruct (strings.Contains (url.Host loc) ":").
    + destruct (strings.Split (url.Host loc) ":" !! 1%nat) as [p|];
        [|discriminate].
      injection Hu as <-. right. eauto.
    + injection Hu as <-. left. reflexivity.
Qed.

(** Two answers, one failed and one without location: no response is left
    and discovery fails. *)
Lemma empty_result_is_error_witness :
  value (@upnpLocation demo.library
           (demo.world [demo.failed; demo.bare ""]) "10.0.0.1" ":1900")
  = Returns (Err (errors_New "No SSDP response avaiable")).
Proof.
  destruct (@empty_result_is_error demo.library
              (demo.world [demo.failed; demo.bare ""]) "10.0.0.1" ":1900"
              (demo.client [demo.failed; demo.bare ""])
              [demo.failed; demo.bare ""] eq_refl eq_refl) as [Hempty _].
  apply Hempty. intros r Hin.
  apply list_elem_of_In in Hin. destruct Hin as [<-|[<-|[]]].
  - left. vm_compute. discriminate.
  - right. eexists. vm_compute. reflexivity.
Defined.

Section Probe.
Context `{Library}.

Lemma ssdpRawSearch_probes (cl : httpu.HTTPUClient) (host : string) :
  List.filter isDo (events (ssdpRawSearch cl host))
  = [EvDo (searchRequest host) searchTimeout numSends].
Proof.
  unfold ssdpRawSearch. cbv zeta. rewrite emit_bind, events_pair.
  cbn [List.filter isDo]. f_equal.
  destruct (httpu.Do cl (searchRequest host) searchTimeout numSends)
    as [all|e]; [|reflexivity].
  rewrite events_bind, List.filter_app, filterResponses_no_probe.
  destruct (value (filterResponses all ∅ [])); reflexivity.
Qed.

Lemma upnpLocation_probes (w : World) (cl : httpu.HTTPUClient)
    (host port : string) :
  NewHTTPUClient w = Ok cl →
  List.filter isDo (events (upnpLocation w host port))
  = [EvDo (searchRequest (host +:+ port)) searchTimeout numSends].
Proof.
  intros Hcl. unfold upnpLocation. rewrite Hcl.
  rewrite events_bind, List.filter_app, ssdpRawSearch_probes.
  destruct (value (ssdpRawSearch cl (host +:+ port))) as [resp|e];
    [|reflexivity].
  destruct (url_Parse _) as [loc|e]; [|reflexivity].
  rewrite emit_bind, events_pair.
  destruct (strings.Contains (url.Host loc) ":"); [|reflexivity].
  destruct (strings.Split (url.Host loc) ":" !! 1%nat); reflexivity.
Qed.

End Probe.

(** C7.  The request handed to [httpu.Do] has method M-SEARCH, the opaque
    URI [*] and exactly four headers, under the keys as written: HOST with
    the probed address, MAN with "ssdp:discover", MX with "5" and ST with
    "upnp:rootdevice".  It is handed over once per search, with a timeout of
    5 s + 100 ms and a send count of 2, and [upnpLocation] probes the
    address [host+port]. *)
Theorem discovery_probe `{Library} (cl : httpu.HTTPUClient) (host : string) :
  http.Method (searchRequest host) = "M-SEARCH" ∧
  http.Host (searchRequest host) = host ∧
  http.URL (searchRequest host) = url.mkURL "" "*" "" "" "" "" ∧
  (∀ k, http.ReqHeader (searchRequest host) !! k
        = if decide (k = "HOST") then Some [host]
          else if decide (k = "MAN") then Some ["ssdp:discover"]
          else if decide (k = "MX") then Some ["5"]
          else if decide (k = "ST") then Some ["upnp:rootdevice"]
          else None) ∧
  searchTimeout = 5 * 1000000000 + 100 * 1000000 ∧
  numSends = 2 ∧
  List.filter isDo (events (ssdpRawSearch cl host))
  = [EvDo (searchRequest host) searchTimeout numSends] ∧
  (∀ w port,
     NewHTTPUClient w = Ok cl →
     List.filter isDo (events (upnpLocation w host port))
     = [EvDo (searchRequest (host +:+ port)) searchTimeout numSends]).
Proof.
  repeat split.
  - intros k. unfold searchRequest. cbn [http.ReqHeader].
    repeat case_decide; subst; simplify_map_eq; reflexivity.
  - apply ssdpRawSearch_probes.
  - intros w port Hcl. apply (upnpLocation_probes w cl host port Hcl).
Qed.

(** Probing 10.0.0.1 on the default port. *)
Lemma discovery_probe_witness :
  List.filter isDo
    (events (@upnpLocation demo.library (demo.world []) "10.0.0.1" ":1900"))
  = [EvDo (searchRequest "10.0.0.1:1900") 5100000000 2].
Proof.
  destruct (@discovery_probe demo.library (demo.client []) "10.0.0.1")
    as (_ & _ & _ & _ & _ & _ & _ & Hprobe).
  exact (Hprobe (demo.world []) ":1900" eq_refl).
Defined.

(** ** Marshalling the index *)

Lemma uint16_range (i : Z) : 0 ≤ uint16 i < 2 ^ 16.
Proof. unfold uint16. apply Z.mod_pos_bound. lia. Qed.

Lemma uint16_small (i : Z) : 0 ≤ i < 2 ^ 16 → uint16 i = i.
Proof. intros Hi. unfold uint16. apply Z.mod_small, Hi. Qed.

Lemma MarshalUi2_in_range (index : Z) :
  0 ≤ index < 2 ^ 16 →
  soap.MarshalUi2 index = Ok (strconv.FormatUint index 10).
Proof.
  intros [Hlo Hhi]. unfold soap.MarshalUi2, uint64.
  apply Z.leb_le in Hlo as Hlo'. apply Z.ltb_lt in Hhi as Hhi'.
  rewrite Hlo', Hhi'. cbn [andb]. rewrite Z.mod_small by lia. reflexivity.
Qed.

(** With an index that fits 16 bits, [portMappingByIdx] performs the action
    and returns what the gateway answers. *)
Lemma portMappingByIdx_in_range (conn : internetgateway1.WANIPConnection1)
    (index : Z) :
  0 ≤ index < 2 ^ 16 →
  portMappingByIdx conn index
  = ([EvPerformAction internetgateway1.URN_WANIPConnection_1
        "GetGenericPortMappingEntry"
        {| NewPortMappingIndex := strconv.FormatUint index 10 |}],
     getEntry conn index).
Proof.
  intros Hi. unfold portMappingByIdx, getEntry.
  rewrite (MarshalUi2_in_range index Hi), emit_bind.
  destruct (internetgateway1.PerformAction conn _ _ _); reflexivity.
Qed.

(** C8.  For an index in the unsigned 16-bit range the marshalling succeeds,
    with the decimal numeral of the index.  [portMappingByIdx] then performs
    the action, and an error it returns is the error of the action; the index
    [uint16(i)] that [main] passes is always in that range. *)
Theorem marshal_index_succeeds (index : Z) :
  0 ≤ index < 2 ^ 16 →
  soap.MarshalUi2 index = Ok (strconv.FormatUint index 10) ∧
  (∀ conn,
     events (portMappingByIdx conn index)
     = [EvPerformAction internetgateway1.URN_WANIPConnection_1
          "GetGenericPortMappingEntry"
          {| NewPortMappingIndex := strconv.FormatUint index 10 |}] ∧
     value (portMappingByIdx conn index) = getEntry conn index) ∧
  (∀ i, ∃ si, soap.MarshalUi2 (uint16 i) = Ok si).
Proof.
  intros Hi. split; [apply MarshalUi2_in_range, Hi|]. split.
  - intros conn. rewrite (portMappingByIdx_in_range conn index Hi).
    split; reflexivity.
  - intros i. eexists. apply MarshalUi2_in_range, uint16_range.
Qed.

(** The last index of the range. *)
Lemma marshal_index_succeeds_witness : soap.MarshalUi2 65535 = Ok "65535".
Proof.
  exact (proj1 (marshal_index_succeeds 65535 ltac:(lia))).
Defined.

(** C9.  Marshalling is a function of the index: equal indices give equal
    numerals, and the request that [portMappingByIdx] sends for an index is
    the same on every run, whatever the connection and its answer. *)
Theorem marshal_is_deterministic
    (c1 c2 : internetgateway1.WANIPConnection1) (i j : Z) :
  0 ≤ i < 2 ^ 16 → i = j →
  soap.MarshalUi2 i = soap.MarshalUi2 j ∧
  queried (events (portMappingByIdx c1 i))
  = [{| NewPortMappingIndex := strconv.FormatUint i 10 |}] ∧
  queried (events (portMappingByIdx c2 j))
  = queried (events (portMappingByIdx c1 i)).
Proof.
  intros Hi <-. split; [reflexivity|].
  rewrite (portMappingByIdx_in_range c1 i Hi),
    (portMappingByIdx_in_range c2 i Hi).
  split; reflexivity.
Qed.

(** Index 7, asked of two gateways with different tables. *)
Lemma marshal_is_deterministic_witness :
  queried (events (portMappingByIdx (demo.gateway 3) 7))
  = queried (events (portMappingByIdx (demo.gateway 60) 7)).
Proof.
  exact (proj2 (proj2 (marshal_is_deterministic (demo.gateway 60)
                         (demo.gateway 3) 7 7 ltac:(lia) eq_refl))).
Defined.

(** ** The enumeration loop of [main] *)

(** The bound of the model is never what stops the loop. *)
Lemma entriesLoop_terminates (c : internetgateway1.WANIPConnection1) :
  ∀ (fuel : nat) (i : Z),
    50 - i ≤ Z.of_nat fuel → value (entriesLoop fuel c i) ≠ OutOfFuel.
Proof.
  induction fuel as [|fuel IH]; intros i Hfuel.
  - cbn [entriesLoop]. destruct (Z.ltb_spec i 50); [lia | discriminate].
  - cbn [entriesLoop]. destruct (Z.ltb_spec i 50); [|discriminate].
    rewrite value_bind.
    destruct (value (portMappingByIdx c (uint16 i))) as [pme|e].
    + rewrite emit_bind, value_pair. apply IH. lia.
    + rewrite emit_bind, value_pair. discriminate.
Qed.

Lemma enumerate_terminates (c : internetgateway1.WANIPConnection1) :
  value (enumerate c) ≠ OutOfFuel.
Proof. apply entriesLoop_terminates. simpl. lia. Qed.

Lemma seqZ_step (i n : Z) : 0 < n → seqZ i n = i :: seqZ (i + 1) (n - 1).
Proof.
  intros Hn. replace n with (Z.succ (n - 1)) at 1 by lia.
  rewrite seqZ_cons by lia. f_equal. f_equal; lia.
Qed.

Section Table.
Variable c : internetgateway1.WANIPConnection1.
Variable K : Z.
Variable tbl : Z → PortMappingEntry.
Variable err : error.
Hypothesis Htable : hasTable c K tbl err.

(** From index [i] on, the loop queries and logs the entries up to the end
    of the table or to index 49, whichever comes first; it stops on the
    error at index [K] when [K] is below 50. *)
Lemma entriesLoop_table :
  ∀ (fuel : nat) (i : Z),
    0 ≤ i ≤ Z.min K 50 → 50 - i ≤ Z.of_nat fuel →
    entriesLoop fuel c i
    = (List.flat_map (entryEvents tbl) (seqZ i (Z.min K 50 - i))
         ++ (if K <? 50 then errorEvents K err else []),
       if K <? 50 then Fatal err else Completed).
Proof.
  destruct Htable as (HK & Hentries & Hend).
  induction fuel as [|fuel IH]; intros i Hi Hfuel.
  { cbn [entriesLoop]. assert (i = 50) by lia. subst i.
    destruct (Z.ltb_spec K 50); [lia|].
    replace (Z.min K 50 - 50) with 0 by lia. reflexivity. }
  cbn [entriesLoop].
  destruct (Z.ltb_spec i 50) as [Hlt|Hge].
  - rewrite portMappingByIdx_in_range by (rewrite uint16_small; lia).
    rewrite uint16_small by lia.
    destruct (Z.eq_dec i (Z.min K 50)) as [Heq|Hne].
    + assert (HiK : i = K) by lia. clear Heq. subst i.
      destruct (Z.ltb_spec K 50); [|lia].
      replace (Z.min K 50 - K) with 0 by lia.
      unfold mbind, M_bind, emit, mret, M_ret. rewrite Hend. reflexivity.
    + rewrite (seqZ_step i (Z.min K 50 - i)) by lia.
      unfold mbind at 1, M_bind at 1.
      rewrite (Hentries i) by lia. rewrite emit_bind.
      rewrite (IH (i + 1)) by lia.
      replace (Z.min K 50 - (i + 1)) with (Z.min K 50 - i - 1) by lia.
      reflexivity.
  - assert (i = 50) by lia. subst i.
    destruct (Z.ltb_spec K 50); [lia|].
    replace (Z.min K 50 - 50) with 0 by lia. reflexivity.
Qed.

End Table.

Lemma yielded_entries (tbl : Z → PortMappingEntry) (tail : list Event) :
  ∀ l : list Z,
    yielded (List.flat_map (entryEvents tbl) l ++ tail)
    = List.map tbl l ++ yielded tail.
Proof.
  induction l as [|i l IH]; [reflexivity|].
  cbn [List.flat_map List.map entryEvents app yielded]. rewrite IH.
  reflexivity.
Qed.

Lemma queried_entries (tbl : Z → PortMappingEntry) (tail : list Event) :
  ∀ l : list Z,
    queried (List.flat_map (entryEvents tbl) l ++ tail)
    = List.map (λ i, {| NewPortMappingIndex := strconv.FormatUint i 10 |}) l
        ++ queried tail.
Proof.
  induction l as [|i l IH]; [reflexivity|].
  cbn [List.flat_map List.map entryEvents app queried]. rewrite IH.
  reflexivity.
Qed.

(** Reading back the numeral of an index below 100 gives the index. *)
Lemma readDecimal_FormatUint (i : Z) :
  0 ≤ i < 100 → demo.readDecimal (strconv.FormatUint i 10) = i.
Proof.
  intros Hi.
  assert (Hall : forallb (λ v, demo.readDecimal (strconv.FormatUint v 10) =? v)
                   (seqZ 0 100) = true) by (vm_compute; reflexivity).
  rewrite forallb_forall in Hall.
  apply Z.eqb_eq, Hall, list_elem_of_In, elem_of_seqZ. lia.
Qed.

Lemma getEntry_gateway (K i : Z) :
  0 ≤ i < 100 →
  getEntry (demo.gateway K) i
  = if i <? K then Ok (demo.entry i) else Err demo.endOfTable.
Proof.
  intros Hi. unfold getEntry, demo.gateway.
  cbn [internetgateway1.PerformAction NewPortMappingIndex].
  rewrite (readDecimal_FormatUint i Hi). reflexivity.
Qed.

Lemma gateway_hasTable (K : Z) :
  0 ≤ K < 100 → hasTable (demo.gateway K) K demo.entry demo.endOfTable.
Proof.
  intros HK. split; [lia|]. split.
  - intros i Hi. rewrite getEntry_gateway by lia.
    destruct (Z.ltb_spec i K); [reflexivity | lia].
  - rewrite getEntry_gateway by lia.
    destruct (Z.ltb_spec K K); [lia | reflexivity].
Qed.

(** C2, as the spec words it, fails for a table of more than 50 entries:
    with 60 valid indices and the error at index 60, the loop logs the
    entries at indices 0..49 only and ends without meeting the error. *)
Lemma enumeration_stops_at_50 :
  hasTable (demo.gateway 60) 60 demo.entry demo.endOfTable ∧
  yielded (events (enumerate (demo.gateway 60)))
  = List.map demo.entry (seqZ 0 50) ∧
  yielded (events (enumerate (demo.gateway 60)))
  ≠ List.map demo.entry (seqZ 0 60) ∧
  value (enumerate (demo.gateway 60)) = Completed.
Proof.
  split; [apply gateway_hasTable; lia|].
  split; [vm_compute; reflexivity|].
  split; [|vm_compute; reflexivity].
  intros Heq. apply (f_equal (@List.length _)) in Heq.
  vm_compute in Heq. discriminate.
Qed.

(** C2, amended.  For a connection whose table has exactly [K] valid indices
    and answers with an error at index [K]: when [K] is below 50 the loop
    queries indices 0..K in ascending order, logs exactly the entries at
    0..K-1 in that order and ends on the error at index [K], logged by
    [log.Fatal]; when [K] is 50 or more it queries and logs exactly the
    entries at 0..49 and ends there. *)
Theorem enumeration_in_index_order (c : internetgateway1.WANIPConnection1)
    (K : Z) (tbl : Z → PortMappingEntry) (err : error) :
  hasTable c K tbl err →
  events (enumerate c)
  = List.flat_map (entryEvents tbl) (seqZ 0 (Z.min K 50))
      ++ (if K <? 50 then errorEvents K err else []) ∧
  yielded (events (enumerate c)) = List.map tbl (seqZ 0 (Z.min K 50)) ∧
  queried (events (enumerate c))
  = List.map (λ i, {| NewPortMappingIndex := strconv.FormatUint i 10 |})
      (seqZ 0 (Z.min (K + 1) 50)) ∧
  value (enumerate c) = (if K <? 50 then Fatal err else Completed).
Proof.
  intros Htable. pose proof Htable as (HK & _ & _).
  unfold enumerate.
  rewrite (entriesLoop_table c K tbl err Htable 50 0) by (simpl; lia).
  rewrite events_pair, value_pair. replace (Z.min K 50 - 0) with (Z.min K 50) by lia.
  split; [reflexivity|]. split; [|split; [|reflexivity]].
  - rewrite yielded_entries.
    destruct (K <? 50); cbn [yielded errorEvents]; apply app_nil_r.
  - rewrite queried_entries.
    destruct (Z.ltb_spec K 50) as [Hlt|Hge].
    + replace (Z.min (K + 1) 50) with (K + 1) by lia.
      replace (Z.min K 50) with K by lia.
      rewrite seqZ_app by lia. rewrite List.map_app. reflexivity.
    + replace (Z.min (K + 1) 50) with 50 by lia.
      replace (Z.min K 50) with 50 by lia.
      cbn [queried]. apply app_nil_r.
Qed.

(** A table of three entries. *)
Lemma enumeration_in_index_order_witness :
  yielded (events (enumerate (demo.gateway 3)))
  = [demo.entry 0; demo.entry 1; demo.entry 2] ∧
  value (enumerate (demo.gateway 3)) = Fatal demo.endOfTable.
Proof.
  destruct (enumeration_in_index_order (demo.gateway 3) 3 demo.entry
              demo.endOfTable (gateway_hasTable 3 ltac:(lia)))
    as (_ & Hy & _ & Hv).
  split; [exact Hy | exact Hv].
Defined.

(** ** The whole run *)

(** The error that ends the table of the first gateway ends the process:
    [main] exits through [log.Fatal], and gateways further down the list
    are not visited. *)
Lemma clientsLoop_first_gateway (c : internetgateway1.WANIPConnection1)
    (rest : list internetgateway1.WANIPConnection1) (K : Z)
    (tbl : Z → PortMappingEntry) (err : error) :
  hasTable c K tbl err → K < 50 →
  clientsLoop (c :: rest)
  = (EvLogDevice (internetgateway1.FriendlyName c)
       (internetgateway1.ServiceString c)
       :: List.flat_map (entryEvents tbl) (seqZ 0 K) ++ errorEvents K err,
     Fatal err).
Proof.
  intros Htable HK. pose proof Htable as (HK0 & _ & _).
  cbn [clientsLoop]. rewrite emit_bind. unfold enumerate.
  rewrite (entriesLoop_table c K tbl err Htable 50 0) by (simpl; lia).
  destruct (Z.ltb_spec K 50); [|lia].
  replace (Z.min K 50 - 0) with K by lia.
  unfold mbind, M_bind, mret, M_ret. cbn [events value fst snd].
  rewrite app_nil_r. reflexivity.
Qed.

(** X13.  When discovery fails, [main] hands the error to [log.Fatal] and
    no gateway is asked anything. *)
Lemma main_discovery_fails `{Library} (w : World) (host port : string)
    (err : error) :
  value (upnpLocation w host port) = Returns (Err err) →
  value (main w host port) = Fatal err ∧
  queried (events (main w host port)) = [].
Proof.
  intros Hv. unfold main. rewrite value_bind, events_bind, Hv, emit_bind.
  split; [reflexivity|].
  rewrite events_pair.
  assert (Hq : ∀ l1 l2, queried (l1 ++ l2) = queried l1 ++ queried l2).
  { induction l1 as [|e l1 IH]; intros l2; [reflexivity|].
    destruct e; cbn [app queried]; rewrite ?IH; reflexivity. }
  rewrite Hq. cbn [queried events fst]. rewrite app_nil_r.
  unfold upnpLocation.
  destruct (NewHTTPUClient w) as [cl|e]; [|reflexivity].
  rewrite events_bind, Hq.
  assert (Hs : queried (events (ssdpRawSearch cl (host +:+ port))) = []).
  { unfold ssdpRawSearch. cbv zeta. rewrite emit_bind, events_pair.
    cbn [queried].
    destruct (httpu.Do cl _ _ _) as [all|e]; [|reflexivity].
    rewrite events_bind, Hq.
    assert (Hf : ∀ rs seen acc,
               queried (events (filterResponses rs seen acc)) = []).
    { induction rs as [|r rs IH]; intros seen acc; [reflexivity|].
      rewrite filterResponses_cons. cbv zeta. rewrite events_pair, Hq.
      assert (Hn : queried (notes r) = []).
      { unfold notes. destruct (negb _); [reflexivity|].
        destruct (Response_Location r); [|reflexivity].
        destruct (String.eqb _ _); reflexivity. }
      rewrite Hn.
      destruct (dedupKey r) as [k|]; [destruct (seen !! k)|]; apply IH. }
    rewrite Hf. destruct (value (filterResponses all ∅ [])); reflexivity. }
  rewrite Hs.
  destruct (value (ssdpRawSearch cl (host +:+ port))) as [resp|e];
    [|reflexivity].
  destruct (url_Parse _) as [loc|e]; [|reflexivity].
  rewrite emit_bind, events_pair.
  destruct (strings.Contains (url.Host loc) ":"); [|reflexivity].
  destruct (strings.Split (url.Host loc) ":" !! 1%nat); reflexivity.
Qed.

(** * Further properties of the program *)

(** ** What the filter of [ssdpRawSearch] keeps *)

Section Kept.
Context `{Library}.

Lemma dedupKey_None (r : http.Response) :
  dedupKey r = None ↔
  http.StatusCode r ≠ 200 ∨ ∃ e, Response_Location r = Err e.
Proof.
  unfold dedupKey.
  destruct (Z.eqb_spec (http.StatusCode r) 200) as [Hs|Hs]; cbn [negb].
  - destruct (Response_Location r) as [loc|e].
    + split; [discriminate|]. intros [Hne|[e He]]; [contradiction|discriminate].
    + split; [eauto | reflexivity].
  - split; [eauto | reflexivity].
Qed.

Lemma dedupKey_Some (r : http.Response) :
  is_Some (dedupKey r) ↔
  http.StatusCode r = 200 ∧ ∃ loc, Response_Location r = Ok loc.
Proof.
  unfold dedupKey.
  destruct (Z.eqb_spec (http.StatusCode r) 200) as [Hs|Hs]; cbn [negb].
  - destruct (Response_Location r) as [loc|e].
    + split; eauto.
    + split; [intros [? ?]; discriminate | intros [_ [? ?]]; discriminate].
  - split; [intros [? ?]; discriminate | intros [? _]; contradiction].
Qed.

Lemma omap_cons_Some {A B} (f : A → option B) (x : A) (y : B) (l : list A) :
  f x = Some y → omap f (x :: l) = y :: omap f l.
Proof. intros Hx. change (omap f (x :: l)) with
  (match f x with Some y => y :: omap f l | None => omap f l end).
  rewrite Hx. reflexivity.
Qed.

(** Adding responses at the end only adds to what is kept. *)
Lemma filterResponses_app_prefix (l2 : list http.Response) :
  ∀ (l1 : list http.Response) (seen : gmap string bool)
    (acc : list http.Response),
    ∃ more,
      value (filterResponses (l1 ++ l2) seen acc)
      = value (filterResponses l1 seen acc) ++ more.
Proof.
  induction l1 as [|r l1 IH]; intros seen acc.
  - cbn [app]. destruct (filterResponses_acc l2 seen acc) as [-> _].
    eexists. reflexivity.
  - cbn [app]. rewrite !filterResponses_cons. cbv zeta.
    rewrite !value_pair.
    destruct (dedupKey r) as [k|]; [destruct (seen !! k)|]; apply IH.
Qed.

(** The loop keeps [seenUsns] and [responses] in step: the keys of the
    responses kept are in the map, and no two of them are equal. *)
Lemma filterResponses_invariant (rs : list http.Response) :
  ∀ (seen : gmap string bool) (acc : list http.Response),
    (∀ r, r ∈ acc → ∃ k, dedupKey r = Some k ∧ is_Some (seen !! k)) →
    NoDup (omap dedupKey acc) →
    (∀ r, r ∈ value (filterResponses rs seen acc) →
          is_Some (dedupKey r)) ∧
    NoDup (omap dedupKey (value (filterResponses rs seen acc))).
Proof.
  induction rs as [|r rs IH]; intros seen acc Hacc Hnd.
  - cbn [filterResponses]. unfold mret, M_ret. rewrite value_pair.
    split; [|exact Hnd].
    intros r Hr. destruct (Hacc r Hr) as (k & -> & _). eauto.
  - rewrite filterResponses_cons. cbv zeta. rewrite value_pair.
    destruct (dedupKey r) as [k|] eqn:Hk;
      [destruct (seen !! k) eqn:Hseen|]; try (apply IH; assumption).
    apply IH.
    + intros r' Hr'. apply elem_of_app in Hr' as [Hr'|Hr'].
      * destruct (Hacc r' Hr') as (k' & Hk' & Hs'). exists k'.
        split; [exact Hk'|].
        destruct (decide (k = k')) as [->|Hne].
        -- rewrite lookup_insert_eq. eauto.
        -- rewrite lookup_insert_ne by exact Hne. exact Hs'.
      * apply list_elem_of_singleton in Hr'. subst r'. exists k.
        split; [exact Hk|]. rewrite lookup_insert_eq. eauto.
    + rewrite omap_app. apply NoDup_app. split; [exact Hnd|]. split.
      * intros k' Hin Hin'. rewrite (omap_cons_Some _ _ _ _ Hk) in Hin'.
        apply list_elem_of_singleton in Hin'. subst k'.
        apply list_elem_of_omap in Hin as (r' & Hr' & Hk').
        destruct (Hacc r' Hr') as (k'' & Hk'' & [b Hb]).
        congruence.
      * rewrite (omap_cons_Some _ _ _ _ Hk). apply NoDup_singleton.
Qed.

(** Responses with pairwise different keys, none of them seen before, are
    all kept, in order. *)
Lemma filterResponses_distinct (rs : list http.Response) :
  ∀ (seen : gmap string bool) (acc : list http.Response),
    (∀ r, r ∈ rs → ∃ k, dedupKey r = Some k ∧ seen !! k = None) →
    NoDup (omap dedupKey rs) →
    value (filterResponses rs seen acc) = acc ++ rs.
Proof.
  induction rs as [|r rs IH]; intros seen acc Hrs Hnd.
  - cbn [filterResponses]. unfold mret, M_ret.
    rewrite value_pair, app_nil_r. reflexivity.
  - rewrite filterResponses_cons. cbv zeta. rewrite value_pair.
    destruct (Hrs r) as (k & Hk & Hseen); [left|].
    rewrite Hk, Hseen. rewrite (omap_cons_Some _ _ _ _ Hk) in Hnd.
    apply NoDup_cons in Hnd as [Hnotin Hnd].
    rewrite IH; [rewrite <- app_assoc; reflexivity | | exact Hnd].
    intros r' Hr'. destruct (Hrs r') as (k' & Hk' & Hseen'); [right; exact Hr'|].
    exists k'. split; [exact Hk'|].
    rewrite lookup_insert_ne; [exact Hseen'|].
    intros ->. apply Hnotin. apply list_elem_of_omap. eauto.
Qed.

(** The first response kept is the first one filed at all. *)
Lemma filterResponses_head (rs : list http.Response) :
  ∀ first rest,
    value (filterResponses rs ∅ []) = first :: rest →
    ∃ l1 l2, rs = l1 ++ first :: l2 ∧
             (∀ r, r ∈ l1 → dedupKey r = None) ∧
             is_Some (dedupKey first).
Proof.
  induction rs as [|r rs IH]; intros first rest Hv; [discriminate|].
  rewrite filterResponses_cons in Hv. cbv zeta in Hv.
  rewrite value_pair in Hv.
  destruct (dedupKey r) as [k|] eqn:Hk.
  - rewrite lookup_empty in Hv.
    destruct (filterResponses_acc rs (<[k:=true]> ∅) ([] ++ [r])) as [Hacc _].
    rewrite Hacc in Hv. injection Hv as <- _.
    exists [], rs. split; [reflexivity|]. split; [|rewrite Hk; eauto].
    intros r' Hin. apply elem_of_nil in Hin. contradiction.
  - destruct (IH first rest Hv) as (l1 & l2 & -> & Hl1 & Hfirst).
    exists (r :: l1), l2. split; [reflexivity|]. split; [|exact Hfirst].
    intros r' Hin. apply elem_of_cons in Hin as [->|Hin]; [exact Hk|].
    apply Hl1, Hin.
Qed.

End Kept.

(** X1.  Every response the filter keeps is one of the responses received,
    has status 200 and a usable location; and no two responses kept are
    filed under the same key. *)
Theorem kept_responses_pass `{Library} (rs : list http.Response) :
  (∀ r, r ∈ value (filterResponses rs ∅ []) →
        r ∈ rs ∧ http.StatusCode r = 200 ∧
        ∃ loc, Response_Location r = Ok loc) ∧
  NoDup (omap dedupKey (value (filterResponses rs ∅ []))).
Proof.
  destruct (filterResponses_invariant rs ∅ []) as [Hsome Hnd].
  - intros r Hin. apply elem_of_nil in Hin. contradiction.
  - apply NoDup_nil_2.
  - split; [|exact Hnd]. intros r Hr. split.
    + apply (elem_of_sublist _ _ _ Hr), filterResponses_sublist.
    + apply dedupKey_Some, Hsome, Hr.
Qed.

(** Of a failed answer, a good one and a repetition of the good one, the
    good one is kept: it is among the answers and has status 200. *)
Lemma kept_responses_pass_witness :
  demo.response "http://192.168.1.1:5000/desc.xml" "uuid:gw"
    ∈ [demo.failed;
       demo.response "http://192.168.1.1:5000/desc.xml" "uuid:gw";
       demo.response "http://192.168.1.1:5000/desc.xml" "uuid:gw"] ∧
  http.StatusCode (demo.response "http://192.168.1.1:5000/desc.xml" "uuid:gw")
  = 200.
Proof.
  assert (Hkept :
            demo.response "http://192.168.1.1:5000/desc.xml" "uuid:gw"
              ∈ value (@filterResponses demo.library
                         [demo.failed;
                          demo.response "http://192.168.1.1:5000/desc.xml" "uuid:gw";
                          demo.response "http://192.168.1.1:5000/desc.xml" "uuid:gw"]
                         ∅ [])).
  { replace (value (@filterResponses demo.library
                      [demo.failed;
                       demo.response "http://192.168.1.1:5000/desc.xml" "uuid:gw";
                       demo.response "http://192.168.1.1:5000/desc.xml" "uuid:gw"]
                      ∅ []))
      with [demo.response "http://192.168.1.1:5000/desc.xml" "uuid:gw"]
      by (vm_compute; reflexivity).
    left. }
  destruct (proj1 (@kept_responses_pass demo.library
                     [demo.failed;
                      demo.response "http://192.168.1.1:5000/desc.xml" "uuid:gw";
                      demo.response "http://192.168.1.1:5000/desc.xml" "uuid:gw"])
              _ Hkept) as (Hin & Hs & _).
  split; [exact Hin | exact Hs].
Defined.

(** X2.  Filtering is idempotent: the loop run over the responses it kept
    keeps all of them, in the same order. *)
Theorem filter_is_idempotent `{Library} (rs : list http.Response) :
  value (filterResponses (value (filterResponses rs ∅ [])) ∅ [])
  = value (filterResponses rs ∅ []).
Proof.
  destruct (filterResponses_invariant rs ∅ []) as [Hsome Hnd].
  - intros r Hin. apply elem_of_nil in Hin. contradiction.
  - apply NoDup_nil_2.
  - rewrite filterResponses_distinct; [reflexivity | | exact Hnd].
    intros r Hr. destruct (Hsome r Hr) as [k Hk]. exists k.
    split; [exact Hk | apply lookup_empty].
Qed.

(** X3.  [ssdpRawSearch] selects the first response, in arrival order, that
    has status 200 and a usable location: it returns [resp] exactly when
    [resp] is such a response and every response before it has another
    status or no usable location.  The USN plays no part in the selection. *)
Theorem ssdpRawSearch_selects_first_usable `{Library}
    (cl : httpu.HTTPUClient) (host : string) (all : list http.Response)
    (resp : http.Response) :
  httpu.Do cl (searchRequest host) searchTimeout numSends = Ok all →
  (value (ssdpRawSearch cl host) = Ok resp ↔
   ∃ l1 l2,
     all = l1 ++ resp :: l2 ∧
     (∀ r, r ∈ l1 →
           http.StatusCode r ≠ 200 ∨ ∃ e, Response_Location r = Err e) ∧
     http.StatusCode resp = 200 ∧
     ∃ loc, Response_Location resp = Ok loc).
Proof.
  intros HDo. rewrite (ssdpRawSearch_value cl host all HDo). split.
  - destruct (value (filterResponses all ∅ [])) as [|first rest] eqn:Hv;
      [discriminate|].
    intros [= ->].
    destruct (filterResponses_head all resp rest Hv)
      as (l1 & l2 & Hall & Hl1 & Hresp).
    exists l1, l2. split; [exact Hall|]. split.
    + intros r Hr. apply dedupKey_None, Hl1, Hr.
    + apply dedupKey_Some, Hresp.
  - intros (l1 & l2 & -> & Hl1 & Hresp).
    apply dedupKey_Some in Hresp as [k Hk].
    destruct (filterResponses_first k resp l2 Hk l1 ∅ [] (lookup_empty _))
      as [after Hv].
    + intros r Hr. rewrite (proj2 (dedupKey_None r) (Hl1 r Hr)). discriminate.
    + rewrite Hv, filterResponses_all_skipped; [reflexivity|].
      intros r Hr. apply dedupKey_None, Hl1, Hr.
Qed.

(** A failed answer first, then a good one without USN: the good one is
    selected. *)
Lemma ssdpRawSearch_selects_first_usable_witness :
  value (@ssdpRawSearch demo.library
           (demo.client [demo.failed;
                         demo.bare "http://192.168.1.1:5000/desc.xml"])
           "10.0.0.1:1900")
  = Ok (demo.bare "http://192.168.1.1:5000/desc.xml").
Proof.
  apply (proj2 (@ssdpRawSearch_selects_first_usable demo.library
           (demo.client [demo.failed;
                         demo.bare "http://192.168.1.1:5000/desc.xml"])
           "10.0.0.1:1900"
           [demo.failed; demo.bare "http://192.168.1.1:5000/desc.xml"]
           (demo.bare "http://192.168.1.1:5000/desc.xml") eq_refl)).
  exists [demo.failed], []. split; [reflexivity|]. split.
  - intros r Hr. apply list_elem_of_singleton in Hr. subst r.
    left. vm_compute. discriminate.
  - split; [reflexivity|]. eexists. vm_compute. reflexivity.
Defined.

(** X4.  Responses that arrive later never change the selection: when a
    search over the responses [all] selects [resp], a search over [all]
    followed by any further responses selects [resp] too. *)
Theorem selection_is_stable `{Library} (cl cl' : httpu.HTTPUClient)
    (host : string) (all more : list http.Response) (resp : http.Response) :
  httpu.Do cl (searchRequest host) searchTimeout numSends = Ok all →
  httpu.Do cl' (searchRequest host) searchTimeout numSends
  = Ok (all ++ more) →
  value (ssdpRawSearch cl host) = Ok resp →
  value (ssdpRawSearch cl' host) = Ok resp.
Proof.
  intros HDo HDo'.
  rewrite (ssdpRawSearch_value cl host all HDo),
    (ssdpRawSearch_value cl' host (all ++ more) HDo').
  destruct (filterResponses_app_prefix more all ∅ []) as [extra ->].
  destruct (value (filterResponses all ∅ [])); [discriminate|].
  intros Hv. exact Hv.
Qed.

(** A second gateway answering later does not displace the first. *)
Lemma selection_is_stable_witness :
  value (@ssdpRawSearch demo.library
           (demo.client
              ([demo.response "http://192.168.1.1:5000/desc.xml" "uuid:gw"]
               ++ [demo.response "http://192.168.1.2:80/igd.xml" "uuid:other"]))
           "10.0.0.1:1900")
  = Ok (demo.response "http://192.168.1.1:5000/desc.xml" "uuid:gw").
Proof.
  exact (@selection_is_stable demo.library
           (demo.client
              [demo.response "http://192.168.1.1:5000/desc.xml" "uuid:gw"])
           (demo.client
              ([demo.response "http://192.168.1.1:5000/desc.xml" "uuid:gw"]
               ++ [demo.response "http://192.168.1.2:80/igd.xml" "uuid:other"]))
           "10.0.0.1:1900"
           [demo.response "http://192.168.1.1:5000/desc.xml" "uuid:gw"]
           [demo.response "http://192.168.1.2:80/igd.xml" "uuid:other"]
           (demo.response "http://192.168.1.1:5000/desc.xml" "uuid:gw")
           eq_refl eq_refl eq_refl).
Defined.

(** X5.  USN keys and location keys share one map.  After a response without
    USN was filed under the string of its location, a later response whose
    USN header is that very string is taken for a repetition: it leaves no
    mark, although the two carry different headers. *)
Theorem usn_and_location_share_keys `{Library}
    (l1 l2 l3 : list http.Response) (r1 r2 : http.Response)
    (loc1 loc2 : url.URL) :
  http.StatusCode r1 = 200 → Response_Location r1 = Ok loc1 →
  Header_Get (http.RespHeader r1) "USN" = "" →
  http.StatusCode r2 = 200 → Response_Location r2 = Ok loc2 →
  Header_Get (http.RespHeader r2) "USN" = URL_String loc1 →
  URL_String loc1 ≠ "" →
  filterResponses (l1 ++ r1 :: l2 ++ r2 :: l3) ∅ []
  = filterResponses (l1 ++ r1 :: l2 ++ l3) ∅ [].
Proof.
  intros Hs1 Hl1 Hu1 Hs2 Hl2 Hu2 Hne.
  destruct (turn_fallback r1 loc1 Hs1 Hl1 Hu1) as [Hk1 _].
  destruct (turn_usn r2 loc2 (URL_String loc1) Hs2 Hl2 Hu2 Hne) as [Hk2 Hn2].
  apply (filterResponses_later (URL_String loc1) r1 r2 l2 l3 Hk1 Hk2 Hn2).
Qed.

(** A device that names itself by its own description URL is dropped after
    an anonymous answer from that URL. *)
Lemma usn_and_location_share_keys_witness :
  value (@filterResponses demo.library
           ([] ++ demo.bare "http://192.168.1.1:5000/desc.xml"
               :: [] ++ demo.response "http://192.168.1.9:80/igd.xml"
                          "http://192.168.1.1:5000/desc.xml"
               :: []) ∅ [])
  = [demo.bare "http://192.168.1.1:5000/desc.xml"].
Proof.
  rewrite (@usn_and_location_share_keys demo.library [] [] []
             (demo.bare "http://192.168.1.1:5000/desc.xml")
             (demo.response "http://192.168.1.9:80/igd.xml"
                "http://192.168.1.1:5000/desc.xml")
             (url.mkURL "http" "" "192.168.1.1:5000" "/desc.xml" "" "")
             (url.mkURL "http" "" "192.168.1.9:80" "/igd.xml" "" ""));
    try (vm_compute; reflexivity).
  vm_compute. discriminate.
Defined.

(** ** What [upnpLocation] returns *)

Section Pieces.
Variable c : ascii.
Local Abbreviation sep := (String c EmptyString).




End Pieces.



(** X7.  [upnpLocation] hands back the errors of its three steps unchanged.
    When the client cannot be made, no probe is sent; when the probe fails,
    nothing is logged; when the [Location] header of the selected response
    does not parse, no location is logged. *)
Theorem upnpLocation_errors `{Library} (w : World) (host port : string)
    (err : error) :
  (NewHTTPUClient w = Err err →
   upnpLocation w host port = ([], Returns (Err err))) ∧
  (∀ cl,
     NewHTTPUClient w = Ok cl →
     httpu.Do cl (searchRequest (host +:+ port)) searchTimeout numSends
     = Err err →
     upnpLocation w host port
     = ([EvDo (searchRequest (host +:+ port)) searchTimeout numSends],
        Returns (Err err))) ∧
  (∀ cl resp,
     NewHTTPUClient w = Ok cl →
     value (ssdpRawSearch cl (host +:+ port)) = Ok resp →
     url_Parse (Header_Get (http.RespHeader resp) "Location") = Err err →
     value (upnpLocation w host port) = Returns (Err err) ∧
     events (upnpLocation w host port)
     = events (ssdpRawSearch cl (host +:+ port))).
Proof.
  split; [|split].
  - intros Hcl. unfold upnpLocation. rewrite Hcl. reflexivity.
  - intros cl Hcl HDo. unfold upnpLocation, ssdpRawSearch. cbv zeta.
    rewrite Hcl, emit_bind, HDo. reflexivity.
  - intros cl resp Hcl Hresp Hloc. unfold upnpLocation.
    rewrite Hcl, value_bind, events_bind, Hresp, Hloc.
    split; [reflexivity | apply app_nil_r].
Qed.

(** A network on which the probe cannot be sent. *)
Lemma upnpLocation_errors_witness :
  @upnpLocation demo.library
    {| NewHTTPUClient :=
         Ok {| httpu.Do := λ _ _ _, Err (errors_New "network is unreachable") |};
       NewWANIPConnection1ClientsByURL := λ _, Ok [] |}
    "10.0.0.1" ":1900"
  = ([EvDo (searchRequest "10.0.0.1:1900") 5100000000 2],
     Returns (Err (errors_New "network is unreachable"))).
Proof.
  destruct (@upnpLocation_errors demo.library
              {| NewHTTPUClient :=
                   Ok {| httpu.Do := λ _ _ _,
                           Err (errors_New "network is unreachable") |};
                 NewWANIPConnection1ClientsByURL := λ _, Ok [] |}
              "10.0.0.1" ":1900" (errors_New "network is unreachable"))
    as (_ & Hprobe & _).
  exact (Hprobe _ eq_refl eq_refl).
Defined.

(** ** The enumeration loop, whatever the gateway answers *)

Section AnyGateway.
Variable c : internetgateway1.WANIPConnection1.

Lemma entryAt_Ok (i : Z) (pme : PortMappingEntry) :
  getEntry c i = Ok pme → getEntry c i = Ok (entryAt c i).
Proof. intros Hi. unfold entryAt. rewrite Hi. reflexivity. Qed.

(** From index [i] on, the loop either meets a first error at some index
    [n] below 50, after the entries at [i..n-1], or logs the entries at
    [i..49] and ends. *)
Lemma entriesLoop_cases :
  ∀ (fuel : nat) (i : Z),
    0 ≤ i ≤ 50 → 50 - i ≤ Z.of_nat fuel →
    (∃ n err,
       i ≤ n < 50 ∧
       (∀ j, i ≤ j < n → getEntry c j = Ok (entryAt c j)) ∧
       getEntry c n = Err err ∧
       entriesLoop fuel c i
       = (List.flat_map (entryEvents (entryAt c)) (seqZ i (n - i))
            ++ errorEvents n err, Fatal err)) ∨
    ((∀ j, i ≤ j < 50 → getEntry c j = Ok (entryAt c j)) ∧
     entriesLoop fuel c i
     = (List.flat_map (entryEvents (entryAt c)) (seqZ i (50 - i)), Completed)).
Proof.
  induction fuel as [|fuel IH]; intros i Hi Hfuel.
  { right. assert (i = 50) by lia. subst i. split; [intros j Hj; lia|].
    reflexivity. }
  cbn [entriesLoop]. destruct (Z.ltb_spec i 50) as [Hlt|Hge].
  2:{ right. assert (i = 50) by lia. subst i. split; [intros j Hj; lia|].
      reflexivity. }
  rewrite portMappingByIdx_in_range by (rewrite uint16_small; lia).
  rewrite uint16_small by lia.
  destruct (getEntry c i) as [pme|e] eqn:Hentry.
  - pose proof (entryAt_Ok i pme Hentry) as Hat.
    assert (Hpme : pme = entryAt c i) by congruence.
    destruct (IH (i + 1)) as [(n & err & Hn & Hok & Herr & Hrun)|[Hok Hrun]];
      [lia | lia | |].
    + left. exists n, err. split; [lia|]. split.
      { intros j Hj. destruct (Z.eq_dec j i) as [->|Hne];
          [exact Hat | apply Hok; lia]. }
      split; [exact Herr|].
      rewrite (seqZ_step i (n - i)) by lia.
      unfold mbind at 1, M_bind at 1. rewrite emit_bind, Hrun, Hpme.
      replace (n - (i + 1)) with (n - i - 1) by lia. reflexivity.
    + right. split.
      { intros j Hj. destruct (Z.eq_dec j i) as [->|Hne];
          [exact Hat | apply Hok; lia]. }
      rewrite (seqZ_step i (50 - i)) by lia.
      unfold mbind at 1, M_bind at 1. rewrite emit_bind, Hrun, Hpme.
      replace (50 - (i + 1)) with (50 - i - 1) by lia. reflexivity.
  - left. exists i, e. split; [lia|]. split; [intros j Hj; lia|].
    split; [exact Hentry|].
    replace (i - i) with 0 by lia. reflexivity.
Qed.

Lemma enumerate_cases :
  (∃ n err,
     0 ≤ n < 50 ∧
     (∀ j, 0 ≤ j < n → getEntry c j = Ok (entryAt c j)) ∧
     getEntry c n = Err err ∧
     enumerate c
     = (List.flat_map (entryEvents (entryAt c)) (seqZ 0 n)
          ++ errorEvents n err, Fatal err)) ∨
  ((∀ j, 0 ≤ j < 50 → getEntry c j = Ok (entryAt c j)) ∧
   enumerate c
   = (List.flat_map (entryEvents (entryAt c)) (seqZ 0 50), Completed)).
Proof.
  unfold enumerate.
  destruct (entriesLoop_cases 50 0) as [(n & err & Hn & Hok & Herr & Hrun)|H];
    [lia | simpl; lia | |].
  - left. exists n, err. replace (n - 0) with n in Hrun by lia. eauto.
  - right. exact H.
Qed.

End AnyGateway.

Lemma yielded_app (l1 l2 : list Event) :
  yielded (l1 ++ l2) = yielded l1 ++ yielded l2.
Proof.
  induction l1 as [|e l1 IH]; [reflexivity|].
  destruct e; cbn [app yielded]; rewrite ?IH; reflexivity.
Qed.

Lemma queried_app (l1 l2 : list Event) :
  queried (l1 ++ l2) = queried l1 ++ queried l2.
Proof.
  induction l1 as [|e l1 IH]; [reflexivity|].
  destruct e; cbn [app queried]; rewrite ?IH; reflexivity.
Qed.

(** X8.  Whatever the gateway answers, the loop of [main] stops at the first
    index that fails: for some [n] up to 50, the entries logged are those
    the gateway holds at indices [0..n-1], in ascending order; the requests
    sent are for the indices [0..n], or [0..49] when [n] is 50; and either
    [n] is 50 and the loop ends normally, or the gateway's error at index
    [n] is the one handed to [log.Fatal]. *)
Theorem enumerate_stops_at_first_error
    (c : internetgateway1.WANIPConnection1) :
  ∃ n,
    0 ≤ n ≤ 50 ∧
    (∀ j, 0 ≤ j < n → getEntry c j = Ok (entryAt c j)) ∧
    yielded (events (enumerate c)) = List.map (entryAt c) (seqZ 0 n) ∧
    queried (events (enumerate c))
    = List.map (λ i, {| NewPortMappingIndex := strconv.FormatUint i 10 |})
        (seqZ 0 (Z.min (n + 1) 50)) ∧
    ((n = 50 ∧ value (enumerate c) = Completed) ∨
     (n < 50 ∧ ∃ err, getEntry c n = Err err ∧
                      value (enumerate c) = Fatal err ∧
                      EvLogFatal err ∈ events (enumerate c))).
Proof.
  destruct (enumerate_cases c) as [(n & err & Hn & Hok & Herr & Hrun)|[Hok Hrun]].
  - exists n. rewrite Hrun, events_pair, value_pair.
    split; [lia|]. split; [exact Hok|]. split; [|split].
    + rewrite yielded_entries. apply app_nil_r.
    + rewrite queried_entries. replace (Z.min (n + 1) 50) with (n + 1) by lia.
      rewrite seqZ_app by lia. rewrite List.map_app. reflexivity.
    + right. split; [lia|]. exists err. split; [exact Herr|].
      split; [reflexivity|]. apply elem_of_app. right. right. left.
  - exists 50. rewrite Hrun, events_pair, value_pair.
    split; [lia|]. split; [exact Hok|]. split; [|split].
    + rewrite <- (app_nil_r (List.flat_map _ _)), yielded_entries.
      apply app_nil_r.
    + rewrite <- (app_nil_r (List.flat_map _ _)), queried_entries.
      apply app_nil_r.
    + left. split; reflexivity.
Qed.

(** A gateway with two entries. *)
Lemma enumerate_stops_at_first_error_witness :
  ∃ n,
    0 ≤ n ≤ 50 ∧
    yielded (events (enumerate (demo.gateway 2)))
    = List.map (entryAt (demo.gateway 2)) (seqZ 0 n).
Proof.
  destruct (enumerate_stops_at_first_error (demo.gateway 2))
    as (n & Hn & _ & Hy & _).
  exists n. split; [exact Hn | exact Hy].
Defined.

(** X9.  The loop of [main] asks a gateway for 50 entries at most and logs
    50 entries at most, and it ends either normally or in [log.Fatal]. *)
Theorem enumerate_is_bounded (c : internetgateway1.WANIPConnection1) :
  (length (queried (events (enumerate c))) ≤ 50)%nat ∧
  (length (yielded (events (enumerate c))) ≤ 50)%nat ∧
  (value (enumerate c) = Completed ∨ ∃ err, value (enumerate c) = Fatal err).
Proof.
  destruct (enumerate_cases c) as [(n & err & Hn & _ & _ & Hrun)|[_ Hrun]];
    rewrite Hrun, events_pair, value_pair.
  - rewrite yielded_entries, queried_entries.
    rewrite !length_app, !List.length_map, !length_seqZ. cbn [length queried
      yielded errorEvents]. split; [lia|]. split; [lia|]. right. eauto.
  - rewrite <- (app_nil_r (List.flat_map _ _)).
    rewrite yielded_entries, queried_entries.
    rewrite !length_app, !List.length_map, !length_seqZ. cbn [length queried
      yielded]. split; [lia|]. split; [lia|]. left. reflexivity.
Qed.

Section Gateways.

(** The gateway answers each of the 50 queries with an entry. *)
Local Abbreviation answersAll c :=
  (∀ j, 0 ≤ j < 50 → ∃ pme, getEntry c j = Ok pme).

Lemma enumerate_completed (c : internetgateway1.WANIPConnection1) :
  value (enumerate c) = Completed ↔ answersAll c.
Proof.
  destruct (enumerate_cases c) as [(n & err & Hn & _ & Herr & Hrun)|[Hok Hrun]];
    rewrite Hrun, value_pair.
  - split; [discriminate|]. intros Hall.
    destruct (Hall n) as [pme Hpme]; [lia|]. congruence.
  - split; [|reflexivity]. intros _ j Hj. eauto.
Qed.

Lemma clientsLoop_cons (c : internetgateway1.WANIPConnection1)
    (rest : list internetgateway1.WANIPConnection1) :
  clientsLoop (c :: rest)
  = (EvLogDevice (internetgateway1.FriendlyName c)
       (internetgateway1.ServiceString c)
       :: events (enumerate c)
       ++ match value (enumerate c) with
          | Completed => events (clientsLoop rest)
          | _ => []
          end,
     match value (enumerate c) with
     | Completed => value (clientsLoop rest)
     | stop => stop
     end).
Proof.
  cbn [clientsLoop]. rewrite emit_bind. f_equal.
  - rewrite events_bind. destruct (value (enumerate c)); reflexivity.
  - rewrite value_bind. destruct (value (enumerate c)); reflexivity.
Qed.

Lemma enumerate_exit (c : internetgateway1.WANIPConnection1) :
  value (enumerate c) = Completed ∨ ∃ err, value (enumerate c) = Fatal err.
Proof.
  destruct (enumerate_cases c) as [(n & err & _ & _ & _ & Hrun)|[_ Hrun]];
    rewrite Hrun, value_pair; [right; eauto | left; reflexivity].
Qed.

Lemma clientsLoop_exit (cs : list internetgateway1.WANIPConnection1) :
  value (clientsLoop cs) = Completed ∨ ∃ err, value (clientsLoop cs) = Fatal err.
Proof.
  induction cs as [|c cs IH]; [left; reflexivity|].
  rewrite clientsLoop_cons, value_pair.
  destruct (enumerate_exit c) as [->|[err ->]]; [exact IH|].
  right. eauto.
Qed.

End Gateways.

(** X10.  The loop over the gateways ends normally exactly when every
    gateway answers all of its 50 queries with an entry; it has then logged
    the 50 entries of each gateway, gateway after gateway.  A gateway with
    fewer than 50 mappings therefore always ends the run in [log.Fatal]. *)
Theorem clientsLoop_completes_iff
    (cs : list internetgateway1.WANIPConnection1) :
  (value (clientsLoop cs) = Completed ↔
   ∀ c, c ∈ cs → ∀ j, 0 ≤ j < 50 → ∃ pme, getEntry c j = Ok pme) ∧
  (value (clientsLoop cs) = Completed →
   yielded (events (clientsLoop cs))
   = List.flat_map (λ c, List.map (entryAt c) (seqZ 0 50)) cs).
Proof.
  induction cs as [|c cs [IHiff IHy]].
  - split; [|reflexivity]. split; [|reflexivity].
    intros _ c Hc. apply elem_of_nil in Hc. contradiction.
  - rewrite clientsLoop_cons, value_pair, events_pair.
    destruct (enumerate_cases c)
      as [(n & err & Hn & _ & Herr & Hrun)|[Hok Hrun]];
      rewrite Hrun, ?value_pair, ?events_pair.
    + split; [|discriminate]. split; [discriminate|]. intros Hall.
      destruct (Hall c (list_elem_of_here c cs) n) as [pme Hpme]; [lia|].
      congruence.
    + split.
      * rewrite IHiff. split.
        -- intros Hcs c' Hc'. apply elem_of_cons in Hc' as [->|Hc'];
             [intros j Hj; eauto | apply Hcs, Hc'].
        -- intros Hall c' Hc'. apply Hall. right. exact Hc'.
      * intros Hdone. cbn [yielded List.flat_map].
        rewrite yielded_app, (IHy Hdone).
        rewrite <- (app_nil_r (List.flat_map (entryEvents _) _)),
          yielded_entries.
        cbn [yielded]. rewrite app_nil_r. reflexivity.
Qed.

(** Two gateways, the second with a table of three entries: the run does not
    end normally. *)
Lemma clientsLoop_completes_iff_witness :
  value (clientsLoop [demo.gateway 60; demo.gateway 3]) ≠ Completed.
Proof.
  intros Hdone.
  destruct (proj1 (proj1 (clientsLoop_completes_iff
                            [demo.gateway 60; demo.gateway 3])) Hdone
              (demo.gateway 3) ltac:(right; left) 3 ltac:(lia)) as [pme Hpme].
  vm_compute in Hpme. discriminate.
Defined.

(** ** The whole run, from discovery to the listing *)

Lemma discovery_yields_nothing (l : list Event) :
  forallb isDiscovery l = true → yielded l = [] ∧ queried l = [].
Proof.
  induction l as [|e l IH]; [split; reflexivity|].
  cbn [forallb]. intros He. apply andb_true_iff in He as [He Hl].
  destruct e; try discriminate He; cbn [yielded queried]; apply IH, Hl.
Qed.

Section Discovery.
Context `{Library}.

Lemma filterResponses_discovery (rs : list http.Response) :
  ∀ (seen : gmap string bool) (acc : list http.Response),
    forallb isDiscovery (events (filterResponses rs seen acc)) = true.
Proof.
  induction rs as [|r rs IH]; intros seen acc; [reflexivity|].
  rewrite filterResponses_cons. cbv zeta. rewrite events_pair, forallb_app.
  apply andb_true_iff. split.
  - unfold notes. destruct (negb _); [reflexivity|].
    destruct (Response_Location r); [|reflexivity].
    destruct (String.eqb _ _); reflexivity.
  - destruct (dedupKey r) as [k|]; [destruct (seen !! k)|]; apply IH.
Qed.

Lemma ssdpRawSearch_discovery (cl : httpu.HTTPUClient) (host : string) :
  forallb isDiscovery (events (ssdpRawSearch cl host)) = true.
Proof.
  unfold ssdpRawSearch. cbv zeta. rewrite emit_bind, events_pair.
  cbn [forallb isDiscovery andb].
  destruct (httpu.Do cl _ _ _) as [all|e]; [|reflexivity].
  rewrite events_bind, forallb_app, filterResponses_discovery.
  destruct (value (filterResponses all ∅ [])); reflexivity.
Qed.

(** Discovery sends its probe and logs; it asks no gateway anything. *)
Lemma upnpLocation_discovery (w : World) (host port : string) :
  forallb isDiscovery (events (upnpLocation w host port)) = true.
Proof.
  unfold upnpLocation. destruct (NewHTTPUClient w) as [cl|e]; [|reflexivity].
  rewrite events_bind, forallb_app, ssdpRawSearch_discovery.
  destruct (value (ssdpRawSearch cl (host +:+ port))) as [resp|e];
    [|reflexivity].
  destruct (url_Parse _) as [loc|e]; [|reflexivity].
  rewrite emit_bind, events_pair.
  destruct (strings.Contains (url.Host loc) ":"); [|reflexivity].
  destruct (strings.Split (url.Host loc) ":" !! 1%nat); reflexivity.
Qed.

Lemma main_found (w : World) (host port : string) (loc : url.URL)
    (cs : list internetgateway1.WANIPConnection1) :
  value (upnpLocation w host port) = Returns (Ok loc) →
  NewWANIPConnection1ClientsByURL w loc = Ok cs →
  main w host port
  = (events (upnpLocation w host port) ++ events (clientsLoop cs),
     value (clientsLoop cs)).
Proof.
  intros Hloc Hcs. unfold main. apply M_eq.
  - rewrite events_bind, events_pair, Hloc, Hcs. reflexivity.
  - rewrite value_bind, value_pair, Hloc, Hcs. reflexivity.
Qed.

End Discovery.

(** X11.  A whole run on a gateway with fewer than 50 mappings: after
    discovery, [main] logs the names of the first gateway found and the [K]
    entries of its table in index order, then exits through [log.Fatal] with
    the error the gateway gave at index [K].  The gateways found after the
    first are not visited. *)
Theorem main_lists_first_gateway `{Library} (w : World) (host port : string)
    (loc : url.URL) (c : internetgateway1.WANIPConnection1)
    (rest : list internetgateway1.WANIPConnection1) (K : Z)
    (tbl : Z → PortMappingEntry) (err : error) :
  value (upnpLocation w host port) = Returns (Ok loc) →
  NewWANIPConnection1ClientsByURL w loc = Ok (c :: rest) →
  hasTable c K tbl err → K < 50 →
  events (main w host port)
  = events (upnpLocation w host port)
      ++ EvLogDevice (internetgateway1.FriendlyName c)
           (internetgateway1.ServiceString c)
      :: List.flat_map (entryEvents tbl) (seqZ 0 K) ++ errorEvents K err ∧
  yielded (events (main w host port)) = List.map tbl (seqZ 0 K) ∧
  value (main w host port) = Fatal err.
Proof.
  intros Hloc Hcs Htable HK.
  rewrite (main_found w host port loc (c :: rest) Hloc Hcs).
  rewrite (clientsLoop_first_gateway c rest K tbl err Htable HK).
  rewrite !events_pair, !value_pair. split; [reflexivity|].
  split; [|reflexivity].
  rewrite yielded_app.
  destruct (discovery_yields_nothing _ (upnpLocation_discovery w host port))
    as [-> _].
  cbn [app yielded]. rewrite yielded_entries. apply app_nil_r.
Qed.

(** Two gateways behind one location, the first with three mappings. *)
Lemma main_lists_first_gateway_witness :
  yielded
    (events
       (@main demo.library
          {| NewHTTPUClient :=
               Ok (demo.client
                     [demo.response "http://192.168.1.1:5000/desc.xml" "uuid:gw"]);
             NewWANIPConnection1ClientsByURL := λ _,
               Ok [demo.gateway 3; demo.gateway 60] |}
          "10.0.0.1" ":1900"))
  = List.map demo.entry (seqZ 0 3).
Proof.
  exact (proj1 (proj2 (@main_lists_first_gateway demo.library
           {| NewHTTPUClient :=
                Ok (demo.client
                      [demo.response "http://192.168.1.1:5000/desc.xml" "uuid:gw"]);
              NewWANIPConnection1ClientsByURL := λ _,
                Ok [demo.gateway 3; demo.gateway 60] |}
           "10.0.0.1" ":1900"
           (url.mkURL "http" "" "10.0.0.1:5000" "/desc.xml" "" "")
           (demo.gateway 3) [demo.gateway 60] 3 demo.entry demo.endOfTable
           eq_refl eq_refl (gateway_hasTable 3 ltac:(lia)) ltac:(lia)))).
Defined.

(** X12.  The program never panics: the index expression
    [strings.Split(loc.Host, ":")[1]] of [upnpLocation] is in range whenever
    it is evaluated, and [main] ends either normally or through
    [log.Fatal]. *)
Theorem run_never_panics `{Library} (w : World) (host port : string) :
  (∃ r, value (upnpLocation w host port) = Returns r) ∧
  (value (main w host port) = Completed ∨
   ∃ err, value (main w host port) = Fatal err).
Proof.
  assert (Hret : ∃ r, value (upnpLocation w host port) = Returns r).
  { destruct (value (upnpLocation w host port)) as [r|msg] eqn:Hv; [eauto|].
    destruct (upnpLocation_no_panic w host port msg Hv). }
  split; [exact Hret|]. destruct Hret as [r Hr].
  unfold main. rewrite value_bind, Hr.
  destruct r as [loc|err]; [|right; exists err; rewrite emit_bind; reflexivity].
  destruct (NewWANIPConnection1ClientsByURL w loc) as [cs|err];
    [apply clientsLoop_exit|].
  right. exists err. rewrite emit_bind. reflexivity.
Qed.

(** No answer at all on the network. *)
Lemma main_discovery_fails_witness :
  value (@main demo.library (demo.world []) "10.0.0.1" ":1900")
  = Fatal (errors_New "No SSDP response avaiable") ∧
  queried (events (@main demo.library (demo.world []) "10.0.0.1" ":1900")) = [].
Proof.
  exact (@main_discovery_fails demo.library (demo.world []) "10.0.0.1" ":1900"
           (errors_New "No SSDP response avaiable") eq_refl).
Defined.
